(** * emubox: the paginated selection menu of [emu_select_list]

    A shallow embedding of the menu code of [src/emubox.c]
    ([qsort_compare], [emu_content_len], [emu_select_list]) and the
    properties of its navigation state machine.

    Conventions.
    - A C [int] is a [Z] kept in range by [int_wrap] (two's complement
      wrap-around) after every arithmetic operation of the source; a
      [size_t] is a [Z] reduced by [size_wrap].
    - A C string is a Rocq [string]: the bytes in front of the NUL
      terminator.
    - [char **arr] is a list of slots, [None] being the NULL pointer that
      [calloc] leaves in a slot; a read outside the allocation is a
      fault of its own ([arr_get] returns [None]).
    - The directory stream is the list of entries [readdir] returns, the
      same snapshot for [emu_content_len] and [emu_select_list].
    - The keyboard is the list of codes [wgetch] returns; when the list
      is used up the session is left waiting in [Browsing].
    - Terminal and stderr output is a trace of [effect]s.
    - The file commands ([emu_get_directory], [emu_create_new],
      [emu_purge_config], ...) take the answers of the system as an
      input ([sys_env]) and return the calls and the text they make as
      a trace of [sys_effect]s, with the way they end.
    - [calloc] is taken to succeed. *)

From Stdlib Require Import ZArith List String Ascii Bool Lia.
From Stdlib Require Import Sorted Permutation.
Import ListNotations.

Local Open Scope Z_scope.

(* ------------------------------------------------------------------ *)
(** ** Machine integers *)

Definition INT_MAX : Z := 2147483647.
Definition INT_MIN : Z := -2147483648.
Definition SIZE_MAX : Z := 18446744073709551615.

Definition int_wrap (z : Z) : Z := (z + 2147483648) mod 4294967296 - 2147483648.
Definition size_wrap (z : Z) : Z := z mod 18446744073709551616.

(* ------------------------------------------------------------------ *)
(** ** Strings: [strlen], [strcmp], [qsort_compare] *)

Definition byte_val (c : ascii) : Z := Z.of_N (N_of_ascii c).

Definition strlen (s : string) : Z := Z.of_nat (String.length s).

(** [strcmp] of the C library: the difference of the first two bytes
    (as [unsigned char]) that differ, the terminator counting as 0. *)
Fixpoint strcmp (s0 s1 : string) : Z :=
  match s0, s1 with
  | EmptyString, EmptyString => 0
  | EmptyString, String c1 _ => 0 - byte_val c1
  | String c0 _, EmptyString => byte_val c0 - 0
  | String c0 t0, String c1 t1 =>
      if byte_val c0 =? byte_val c1
      then (if byte_val c0 =? 0 then 0 else strcmp t0 t1)
      else byte_val c0 - byte_val c1
  end.

(** [qsort_compare]: [strcmp( *(char ** )s0, *(char ** )s1)]. *)
Definition qsort_compare (s0 s1 : string) : Z := strcmp s0 s1.

(** A C string holds no NUL byte in front of its terminator. *)
Definition no_nul (s : string) : Prop :=
  Forall (fun c => byte_val c <> 0) (list_ascii_of_string s).

(** [qsort] of the C library, by a reference algorithm (insertion).
    [qsort_unique] below shows that every sorted rearrangement of the
    same names is this one, so the algorithm chosen does not matter. *)
Fixpoint qsort_insert {A : Type} (cmp : A -> A -> Z) (x : A) (l : list A) : list A :=
  match l with
  | [] => [x]
  | y :: t => if cmp x y <=? 0 then x :: l else y :: qsort_insert cmp x t
  end.

Definition qsort {A : Type} (cmp : A -> A -> Z) (l : list A) : list A :=
  fold_right (qsort_insert cmp) [] l.

(* ------------------------------------------------------------------ *)
(** ** Directory entries and [emu_content_len] *)

Definition DT_REG : Z := 8.
Definition DT_DIR : Z := 4.

Record dirent := mkDirent { d_name : string; d_type : Z }.

Record content_len_info := mkClinfo {
  name_sz : Z;    (* total length of the file names *)
  column_sz : Z;  (* number of rows, at most 10, plus 5 *)
  row_sz : Z      (* longest name, plus 13 *)
}.

Definition is_dot (den : dirent) : bool :=
  (strcmp (d_name den) "." =? 0) || (strcmp (d_name den) ".." =? 0).

Definition content_len_step (cl : content_len_info) (den : dirent) : content_len_info :=
  if is_dot den then cl
  else if d_type den =? DT_REG then
    let tsz := strlen (d_name den) in
    {| name_sz := size_wrap (name_sz cl + tsz);
       column_sz := if column_sz cl <? 10 then size_wrap (column_sz cl + 1)
                    else column_sz cl;
       row_sz := if tsz >? row_sz cl then tsz else row_sz cl |}
  else cl.

Definition emu_content_len (dirents : list dirent) : content_len_info :=
  let cl := fold_left content_len_step dirents (mkClinfo 0 0 0) in
  {| name_sz := name_sz cl;
     column_sz := size_wrap (column_sz cl + 5);
     row_sz := size_wrap (row_sz cl + 13) |}.

(* ------------------------------------------------------------------ *)
(** ** The name array *)

Definition array := list (option string).

Definition calloc (n : Z) : array := repeat None (Z.to_nat n).

(** [arr[i]] as an rvalue: [None] when [i] is outside the allocation. *)
Definition arr_get (arr : array) (i : Z) : option (option string) :=
  if i <? 0 then None else nth_error arr (Z.to_nat i).

Fixpoint list_set {A : Type} (l : list A) (n : nat) (v : A) : option (list A) :=
  match l, n with
  | [], _ => None
  | _ :: t, O => Some (v :: t)
  | x :: t, S n' =>
      match list_set t n' v with
      | Some t' => Some (x :: t')
      | None => None
      end
  end.

(** [arr[i] = v]: [None] when [i] is outside the allocation. *)
Definition arr_set (arr : array) (i : Z) (v : option string) : option array :=
  if i <? 0 then None else list_set arr (Z.to_nat i) v.

(** The second [readdir] loop of [emu_select_list]: every regular file
    that is not a dot entry is stored at [arr[pre_idx]]. *)
Fixpoint fill (dirents : list dirent) (arr : array) (pre_idx : Z) : option (array * Z) :=
  match dirents with
  | [] => Some (arr, pre_idx)
  | den :: rest =>
      if is_dot den then fill rest arr pre_idx
      else if d_type den =? DT_REG then
        match arr_set arr pre_idx (Some (d_name den)) with
        | Some arr' => fill rest arr' (int_wrap (pre_idx + 1))
        | None => None
        end
      else fill rest arr pre_idx
  end.

Fixpoint deref_all (slots : list (option string)) : option (list string) :=
  match slots with
  | [] => Some []
  | None :: _ => None
  | Some s :: t =>
      match deref_all t with
      | Some l => Some (s :: l)
      | None => None
      end
  end.

(** [qsort(arr, pre_idx, sizeof(char * ), qsort_compare)]: the first
    [pre_idx] slots are sorted in place; the comparison dereferences
    each of them, so a NULL among them is a fault. *)
Definition qsort_prefix (arr : array) (pre_idx : Z) : option array :=
  let n := Z.to_nat pre_idx in
  if (List.length arr <? n)%nat then None
  else match deref_all (firstn n arr) with
       | Some names => Some (map Some (qsort qsort_compare names) ++ skipn n arr)
       | None => None
       end.

(** The names the menu lists, in the order [readdir] gave them, and
    after the sort. *)
Definition dir_names (dirents : list dirent) : list string :=
  map d_name
    (filter (fun den => negb (is_dot den) && (d_type den =? DT_REG)) dirents).

Definition list_entries (dirents : list dirent) : list string :=
  qsort qsort_compare (dir_names dirents).

(* ------------------------------------------------------------------ *)
(** ** Drawing *)

Inductive draw : Type :=
| DClearFrame (width : Z)            (* wclear, title, rule, box *)
| DWattron                           (* wattron(win, A_REVERSE) *)
| DWattroff
| DPrintNum (y x n : Z)              (* mvwprintw(win, y, x, "%d. ", n) *)
| DPrintStr (y x : Z) (s : string).  (* mvwprintw(win, y, x, "%s", s) *)

Inductive effect : Type :=
| EStderr (msg : string)
| EInitscr (lines cols : Z)
| EFrame (cmds : list draw)
| EEndwin.

Definition LF : string := String (ascii_of_nat 10) EmptyString.

Definition msg_missing_dir : string := ("emubox: missing config directory." ++ LF)%string.
Definition msg_no_configs : string := ("emubox: no configs are available." ++ LF)%string.
Definition msg_out_of_range : string := ("emubox: out of range." ++ LF)%string.

(* ------------------------------------------------------------------ *)
(** ** Navigation state and the render loop *)

Record nav := mkNav {
  xs : Z;        (* first index of the page shown *)
  run_idx : Z;   (* index of the highlighted entry *)
  end_page : Z   (* set to 1 when the page shown is the last *)
}.

Inductive render_exit : Type :=
| RenderEnd                 (* the loop condition became false *)
| RenderBreak               (* end_page = 1; break *)
| RenderOutOfRange          (* goto out_cleanup *)
| RenderFault (i : Z)       (* arr[i] read outside the allocation *)
| RenderFuel.                (* never returned: [render_total] *)

Record rendered := mkRendered {
  r_exit : render_exit;
  r_draw : list draw;
  r_probes : list Z           (* the indices of [arr] that were read *)
}.

Definition prints (xw new_idx : Z) (name : string) : list draw :=
  let n := int_wrap (new_idx + 1) in
  let y := int_wrap (xw + 3) in
  (if n <=? 9 then [DPrintNum y 4 n; DPrintStr y 7 name] else []) ++
  (if n >? 9 then [DPrintNum y 3 n; DPrintStr y 7 name] else []) ++
  (if n >? 99 then [DPrintNum y 2 n; DPrintStr y 7 name] else []) ++
  (if n >? 999 then [DPrintNum y 1 n; DPrintStr y 7 name] else []).

(** [for (new_idx = xs; new_idx < (xs + 10); new_idx++, xw++)]. *)
Fixpoint render_rows (fuel : nat) (arr : array) (xs0 run : Z) (new_idx xw : Z) : rendered :=
  match fuel with
  | O => mkRendered RenderFuel [] []
  | S fuel' =>
      if new_idx <? int_wrap (xs0 + 10) then
        let d1 := if new_idx =? run then [DWattron] else [] in
        match arr_get arr new_idx with
        | None => mkRendered (RenderFault new_idx) d1 [new_idx]
        | Some None => mkRendered RenderBreak d1 [new_idx]
        | Some (Some name) =>
            let d2 := prints xw new_idx name in
            if int_wrap (new_idx + 1) >? 9999 then
              mkRendered RenderOutOfRange (d1 ++ d2) [new_idx]
            else
              let d3 := if new_idx =? run then [DWattroff] else [] in
              let nxt := int_wrap (new_idx + 1) in
              match arr_get arr nxt with
              | None => mkRendered (RenderFault nxt) (d1 ++ d2 ++ d3) [new_idx; nxt]
              | Some None => mkRendered RenderBreak (d1 ++ d2 ++ d3) [new_idx; nxt]
              | Some (Some _) =>
                  let r := render_rows fuel' arr xs0 run nxt (int_wrap (xw + 1)) in
                  mkRendered (r_exit r) (d1 ++ d2 ++ d3 ++ r_draw r)
                             (new_idx :: nxt :: r_probes r)
              end
        end
      else mkRendered RenderEnd [] []
  end.

(** One pass of the drawing code at the head of [for (;;)]: at most ten
    rows, so eleven tests of the loop condition. *)
Definition row_fuel : nat := 11.

Definition render (cl : content_len_info) (arr : array) (s : nav) : rendered :=
  match render_rows row_fuel arr (xs s) (run_idx s) (xs s) 0 with
  | mkRendered e d p => mkRendered e (DClearFrame (row_sz cl) :: d) p
  end.

(* ------------------------------------------------------------------ *)
(** ** Keys *)

(** Key codes of <ncurses.h> (octal 0402, 0403, 0404, 0405, 0407). *)
Definition KEY_DOWN : Z := 258.
Definition KEY_UP : Z := 259.
Definition KEY_LEFT : Z := 260.
Definition KEY_RIGHT : Z := 261.
Definition KEY_BACKSPACE : Z := 263.
(** The line feed the source tests with [ch == 10]. *)
Definition KEY_NEWLINE : Z := 10.

Inductive key_result : Type :=
| KeyContinue (s : nav)
| KeyExit.                  (* _Exit(EXIT_SUCCESS) *)

(** The [switch (ch)] of the loop. *)
Definition on_key (pre_idx ch : Z) (s : nav) : key_result :=
  if ch =? KEY_UP then
    let r := int_wrap (run_idx s - 1) in
    KeyContinue (mkNav (xs s) (if r <? 0 then 0 else r) (end_page s))
  else if ch =? KEY_DOWN then
    let r := int_wrap (run_idx s + 1) in
    KeyContinue (mkNav (xs s)
                       (if r >=? pre_idx then int_wrap (pre_idx - 1) else r)
                       (end_page s))
  else if ch =? KEY_RIGHT then
    if end_page s =? 0 then
      let x := int_wrap (xs s + 10) in
      KeyContinue (mkNav x x (end_page s))
    else KeyContinue s
  else if ch =? KEY_LEFT then
    if xs s >? 0 then
      let x := int_wrap (xs s - 10) in
      KeyContinue (mkNav x x 0)
    else KeyContinue s
  else if ch =? KEY_BACKSPACE then KeyExit
  else KeyContinue s.

(* ------------------------------------------------------------------ *)
(** ** The session *)

Inductive outcome : Type :=
| Chosen (name : string)     (* the loop was left by [ch == 10] *)
| Cancelled                  (* KEY_BACKSPACE *)
| Browsing (s : nav)         (* waiting in [wgetch] with state [s] *)
| EmptySelection             (* no config file to list *)
| StoreUnavailable           (* [opendir] failed *)
| IndexOutOfRange            (* an index above 9999 was drawn *)
| MemoryFault.               (* a read or write outside [arr], or of NULL *)

Definition after_render (s : nav) (e : render_exit) : nav :=
  match e with
  | RenderBreak => mkNav (xs s) (run_idx s) 1
  | _ => s
  end.

(** [for (;;)] of [emu_select_list], and what follows it up to the
    moment the chosen name [arr[run_idx]] is read (resolving the path
    and starting the program belong to the launcher). *)
Fixpoint select_loop (cl : content_len_info) (arr : array) (pre_idx : Z)
         (keys : list Z) (s : nav) : outcome * list effect :=
  let r := render cl arr s in
  match r_exit r with
  | RenderOutOfRange =>
      (IndexOutOfRange, [EFrame (r_draw r); EEndwin; EStderr msg_out_of_range])
  | RenderFault _ | RenderFuel => (MemoryFault, [EFrame (r_draw r)])
  | RenderEnd | RenderBreak =>
      let s1 := after_render s (r_exit r) in
      match keys with
      | [] => (Browsing s1, [EFrame (r_draw r)])
      | ch :: rest =>
          match on_key pre_idx ch s1 with
          | KeyExit => (Cancelled, [EFrame (r_draw r); EEndwin])
          | KeyContinue s2 =>
              if ch =? 10 then
                match arr_get arr (run_idx s2) with
                | Some (Some name) => (Chosen name, [EFrame (r_draw r); EEndwin])
                | _ => (MemoryFault, [EFrame (r_draw r); EEndwin])
                end
              else
                let '(o, e) := select_loop cl arr pre_idx rest s2 in
                (o, EFrame (r_draw r) :: e)
          end
      end
  end.

Definition nav0 : nav := mkNav 0 0 0.

(** The array as it is when the loop starts: allocated, filled, sorted;
    with it the value of [pre_idx]. *)
Definition build_array (dirents : list dirent) : option (array * Z) :=
  let clinfo := emu_content_len dirents in
  match fill dirents (calloc (size_wrap (name_sz clinfo + 1))) 0 with
  | None => None
  | Some (arr, pre_idx) =>
      if pre_idx =? 0 then Some (arr, pre_idx)
      else match qsort_prefix arr pre_idx with
           | Some arr' => Some (arr', pre_idx)
           | None => None
           end
  end.

(** [emu_select_list]; [dir] is [None] when [opendir] fails. *)
Definition emu_select_list (dir : option (list dirent)) (keys : list Z)
  : outcome * list effect :=
  match dir with
  | None => (StoreUnavailable, [EStderr msg_missing_dir])
  | Some dirents =>
      let clinfo := emu_content_len dirents in
      match build_array dirents with
      | None => (MemoryFault, [])
      | Some (arr, pre_idx) =>
          if pre_idx =? 0 then (EmptySelection, [EStderr msg_no_configs])
          else
            let '(o, e) := select_loop clinfo arr pre_idx keys nav0 in
            (o, EInitscr (column_sz clinfo) (row_sz clinfo) :: e)
      end
  end.

(* ------------------------------------------------------------------ *)
(** ** Orders, invariants and the session as a whole *)

(** Byte-wise lexicographic order on byte sequences, as the words
    say it: at the first position where two sequences differ the
    smaller byte decides, and a proper prefix comes first. *)
Fixpoint lex_le (a b : list Z) : Prop :=
  match a, b with
  | [], _ => True
  | _ :: _, [] => False
  | x :: a', y :: b' => x < y \/ (x = y /\ lex_le a' b')
  end.

Definition bytes_of (s : string) : list Z := map byte_val (list_ascii_of_string s).

(** The order a comparison function in the manner of [strcmp] gives. *)
Definition cmp_le {A : Type} (cmp : A -> A -> Z) (x y : A) : Prop := cmp x y <= 0.

Definition total_len (names : list string) : Z :=
  fold_right (fun s acc => strlen s + acc) 0 names.

(** A name [readdir] returns: not empty, and it fits [d_name[256]]. *)
Definition name_ok (s : string) : Prop := 1 <= strlen s <= 255.

(** A directory listing the code can be given: its names are as
    [readdir] returns them and their number fits the [int] that counts
    them. *)
Definition dir_ok (dirents : list dirent) : Prop :=
  Forall name_ok (dir_names dirents) /\
  Z.of_nat (List.length (dir_names dirents)) <= INT_MAX.

(** Number of slots [calloc] is asked for, and the slots left NULL
    behind the names. *)
Definition slots (dirents : list dirent) : Z := total_len (dir_names dirents) + 1.

Definition spare (dirents : list dirent) : nat :=
  (Z.to_nat (slots dirents) - List.length (dir_names dirents))%nat.

Definition entry_count (dirents : list dirent) : Z :=
  Z.of_nat (List.length (dir_names dirents)).

(** What the loop relies on: [pre_idx] names in front of a NULL slot. *)
Definition arr_ok (arr : array) (pre_idx : Z) : Prop :=
  1 <= pre_idx <= INT_MAX /\
  (forall i, 0 <= i < pre_idx -> exists name, arr_get arr i = Some (Some name)) /\
  arr_get arr pre_idx = Some None.

(** The state at the head of [for (;;)]. *)
Definition loop_inv (pre_idx : Z) (s : nav) : Prop :=
  0 <= xs s <= 9990 /\ xs s mod 10 = 0 /\ xs s < pre_idx /\
  0 <= run_idx s < pre_idx /\
  (end_page s = 0 \/ end_page s = 1) /\
  (end_page s = 1 -> pre_idx <= xs s + 10).

(** The state when [wgetch] is called, a page having been drawn. *)
Definition wait_inv (pre_idx : Z) (s : nav) : Prop :=
  loop_inv pre_idx s /\
  (pre_idx <= xs s + 10 -> end_page s = 1) /\
  (xs s = 9990 -> pre_idx < 10000).

Definition page_exit (pre_idx xs0 : Z) : render_exit :=
  if (xs0 =? 9990) && (10000 <=? pre_idx) then RenderOutOfRange
  else if pre_idx <=? xs0 + 10 then RenderBreak else RenderEnd.

(** What a session can end in, from a state of the loop. *)
Definition outcome_ok (arr : array) (pre_idx : Z) (o : outcome) : Prop :=
  match o with
  | Browsing s' => wait_inv pre_idx s'
  | Chosen name =>
      exists i, 0 <= i < pre_idx /\ arr_get arr i = Some (Some name)
  | Cancelled => True
  | IndexOutOfRange => 10000 <= pre_idx
  | EmptySelection | StoreUnavailable | MemoryFault => False
  end.

(** The part of one turn of the loop that follows the drawing: the key
    read by [wgetch], the [switch], the test of [ch == 10]. *)
Definition key_phase (cl : content_len_info) (arr : array) (pre_idx : Z)
           (d : list draw) (keys : list Z) (s1 : nav) : outcome * list effect :=
  match keys with
  | [] => (Browsing s1, [EFrame d])
  | ch :: rest =>
      match on_key pre_idx ch s1 with
      | KeyExit => (Cancelled, [EFrame d; EEndwin])
      | KeyContinue s2 =>
          if ch =? 10 then
            match arr_get arr (run_idx s2) with
            | Some (Some name) => (Chosen name, [EFrame d; EEndwin])
            | _ => (MemoryFault, [EFrame d; EEndwin])
            end
          else
            let '(o, e) := select_loop cl arr pre_idx rest s2 in
            (o, EFrame d :: e)
      end
  end.

Definition sorted_array (dirents : list dirent) : array :=
  map Some (list_entries dirents) ++ repeat None (spare dirents).

Definition session (dirents : list dirent) (keys : list Z) : outcome * list effect :=
  select_loop (emu_content_len dirents) (sorted_array dirents)
              (entry_count dirents) keys nav0.

(* ------------------------------------------------------------------ *)
(** ** Directories used as examples *)

Definition digit (i : Z) : ascii := ascii_of_N (Z.to_N (48 + i mod 10)).

(** The name of four decimal digits of [i]. *)
Definition cfg_name (i : Z) : string :=
  String (digit (i / 1000)) (String (digit (i / 100))
    (String (digit (i / 10)) (String (digit i) EmptyString))).

Definition cfg_dir (n : Z) : list dirent :=
  map (fun i => mkDirent (cfg_name (Z.of_nat i)) DT_REG) (seq 0 (Z.to_nat n)).

Definition scenario_dir : list dirent :=
  [mkDirent "." DT_DIR; mkDirent ".." DT_DIR;
   mkDirent "a.cfg" DT_REG; mkDirent "z.cfg" DT_REG; mkDirent "m.cfg" DT_REG].

Definition dir_okb (dirents : list dirent) : bool :=
  forallb (fun s => (1 <=? strlen s) && (strlen s <=? 255)) (dir_names dirents)
  && (Z.of_nat (List.length (dir_names dirents)) <=? INT_MAX).

Definition no_nulb (s : string) : bool :=
  forallb (fun c => negb (byte_val c =? 0)) (list_ascii_of_string s).

(* ------------------------------------------------------------------ *)
(** ** Paths: [strchr], [strstr], [snprintf], [emu_basename] *)

(** [strchr(s, c) != NULL], for a byte [c] other than the terminator. *)
Fixpoint strchr (s : string) (c : ascii) : bool :=
  match s with
  | EmptyString => false
  | String d t => if byte_val d =? byte_val c then true else strchr t c
  end.

(** [strstr(hay, needle) != NULL]. *)
Fixpoint strstr (hay needle : string) : bool :=
  if String.prefix needle hay then true
  else match hay with
       | EmptyString => false
       | String _ t => strstr t needle
       end.

(** The string [snprintf(p, sz, ...)] leaves in [p], given the text the
    format expands to: at most [sz - 1] bytes of it. *)
Definition snprintf (sz : Z) (formatted : string) : string :=
  if sz <=? 0 then EmptyString
  else substring 0 (Z.to_nat (sz - 1)) formatted.

(** [memcpy(p + strlen(p), src, strlen(src))] into a zeroed buffer of
    [sz] bytes that holds the string [p]: [None] when the bytes, or the
    terminator behind them, fall outside the buffer. *)
Definition memcpy_end (sz : Z) (p src : string) : option string :=
  if strlen p + strlen src <? sz then Some (p ++ src)%string else None.

Definition SLASH : ascii := "/"%char.

(** [emu_basename]: [while (strchr(p, '/') != NULL) p++]. *)
Fixpoint emu_basename (path : string) : string :=
  match path with
  | EmptyString => path
  | String _ t => if strchr path SLASH then emu_basename t else path
  end.

(* ------------------------------------------------------------------ *)
(** ** The environment of the file commands *)

Inductive stat_result : Type := StatOk | StatENOENT | StatError.
Inductive unlink_result : Type := UnlinkOk | UnlinkENOENT | UnlinkError.
Inductive mkdir_result : Type := MkdirOk | MkdirEEXIST | MkdirError.

(** What the system answers: [getenv("HOME")], and for each path the
    result of [stat], [open(.., O_CREAT, ..)], [unlink], [mkdir]; and
    whether [fork] gives a child. *)
Record sys_env := mkEnv {
  env_home : option string;
  env_stat : string -> stat_result;
  env_open : string -> bool;
  env_unlink : string -> unlink_result;
  env_mkdir : string -> mkdir_result;
  env_fork : bool
}.

(** What a command does to the outside: text written, calls that change
    the file system (as called, whatever they answer), programs run. *)
Inductive sys_effect : Type :=
| SStdout (msg : string)
| SStderr (msg : string)
| SWarn (what : string)              (* warn(what) *)
| SMkdir (path : string)             (* mkdir(path, 0700) *)
| SCreat (path : string)             (* open(path, O_CREAT, S_IRWXU) *)
| SUnlink (path : string)            (* unlink(path) *)
| SExec (argv : list string).        (* execl in the forked child *)

Inductive ending : Type :=
| Returns
| Exits (status : Z).                (* exit(status) *)

Definition EXIT_SUCCESS : Z := 0.
Definition EXIT_FAILURE : Z := 1.

Definition PATH_86BOX : string := "./86Box.AppImage".

Definition DQ : string := String (ascii_of_nat 34) EmptyString.

Definition msg_home_unset : string :=
  ("emubox: $HOME environment variable is not set." ++ LF)%string.
Definition msg_dir_not_found : string :=
  ("emubox: config directory wasn't found." ++ LF)%string.
Definition msg_dir_exists : string :=
  ("emubox: emubox config directory already exists." ++ LF)%string.
Definition msg_dir_created : string :=
  ("emubox: done: emubox directory has been created." ++ LF)%string.

(** [emu_get_directory]: the path it returns ([None] for NULL) and what
    it wrote. *)
Definition emu_get_directory (env : sys_env) : option string * list sys_effect :=
  match env_home env with
  | None => (None, [SStderr msg_home_unset])
  | Some home =>
      let sz := size_wrap (strlen home + 9) in
      let p := snprintf sz (home ++ "/.emubox/") in
      match env_stat env p with
      | StatOk => (Some p, [])
      | _ => (None, [SStderr msg_dir_not_found])
      end
  end.

(** [emu_init_directory]. *)
Definition emu_init_directory (env : sys_env) : list sys_effect * ending :=
  match env_home env with
  | None => ([SStderr msg_home_unset], Exits EXIT_FAILURE)
  | Some home =>
      let sz := size_wrap (strlen home + 9) in
      let p := snprintf sz (home ++ "/.emubox") in
      match env_mkdir env p with
      | MkdirOk => ([SMkdir p; SStdout msg_dir_created], Returns)
      | MkdirEEXIST => ([SMkdir p; SStderr msg_dir_exists], Exits EXIT_FAILURE)
      | MkdirError => ([SMkdir p; SWarn "mkdir"], Exits EXIT_FAILURE)
      end
  end.

(** [emu_create_new]. *)
Definition emu_create_new (env : sys_env) (name : string) : list sys_effect * ending :=
  match emu_get_directory env with
  | (None, e) => (e, Exits EXIT_FAILURE)
  | (Some path, e) =>
      let sz := size_wrap (strlen path + strlen name + 10) in
      let formatted :=
        if strstr name ".cfg" then (path ++ "/" ++ name)%string
        else (path ++ "/" ++ name ++ ".cfg")%string in
      let p := snprintf sz formatted in
      match env_stat env p with
      | StatOk =>
          (e ++ [SStderr ("emubox: file " ++ DQ ++ emu_basename p ++ DQ
                          ++ " already exists." ++ LF)], Returns)
      | _ =>
          if env_open env p
          then (e ++ [SCreat p;
                      SStdout ("emubox: done: created " ++ DQ ++ emu_basename p
                               ++ DQ ++ "." ++ LF)], Returns)
          else (e ++ [SCreat p; SWarn "open"], Returns)
      end
  end.

(** The path [emu_purge_config] unlinks: [None] when the [memcpy] of
    [".cfg"] leaves the buffer. *)
Definition purge_target (env : sys_env) (path name : string) : option string :=
  let sz := size_wrap (strlen path + strlen name + 7) in
  let p := snprintf sz (path ++ "/" ++ name) in
  if strstr name ".cfg" then Some p
  else
    let lsz := strlen p in
    match memcpy_end sz p ".cfg" with
    | None => None
    | Some p' =>
        match env_stat env p' with
        | StatENOENT => Some (substring 0 (Z.to_nat lsz) p')   (* p[lsz] = 0 *)
        | _ => Some p'
        end
    end.

(** [emu_purge_config]; [None] for a write outside the path buffer. *)
Definition emu_purge_config (env : sys_env) (name : string)
  : option (list sys_effect * ending) :=
  match emu_get_directory env with
  | (None, e) => Some (e, Exits EXIT_FAILURE)
  | (Some path, e) =>
      match purge_target env path name with
      | None => None
      | Some p =>
          match env_unlink env p with
          | UnlinkOk =>
              Some (e ++ [SUnlink p;
                          SStdout ("emubox: deleted config: " ++ emu_basename p ++ LF)],
                    Returns)
          | UnlinkENOENT =>
              Some (e ++ [SUnlink p;
                          SStderr ("emubox: unknown config file: " ++ name ++ LF)],
                    Exits EXIT_FAILURE)
          | UnlinkError => Some (e ++ [SUnlink p; SWarn "unlink"], Exits EXIT_FAILURE)
          end
      end
  end.



(** The argument list [emu_launch_box] gives [execl]. *)
Definition launch_box_argv (conf : string) (lang : option string) (is_fullscreen : Z)
  : list string :=
  match lang with
  | Some l =>
      if is_fullscreen =? 0
      then [PATH_86BOX; PATH_86BOX; "-C"; conf; "-G"; l]%string
      else [PATH_86BOX; PATH_86BOX; "-C"; conf; "-G"; l; "-F"]%string
  | None =>
      if is_fullscreen =? 0
      then [PATH_86BOX; PATH_86BOX; "-C"; conf]%string
      else [PATH_86BOX; PATH_86BOX; "-C"; conf; "-F"]%string
  end.

(** [emu_launch_box]: the child of [fork] runs the program; without a
    child nothing happens. *)
Definition emu_launch_box (env : sys_env) (conf : string) (lang : option string)
           (is_fullscreen : Z) : list sys_effect :=
  if env_fork env then [SExec (launch_box_argv conf lang is_fullscreen)] else [].

(** [emu_launch_settings]. *)
Definition emu_launch_settings (env : sys_env) (conf : string) : list sys_effect :=
  if env_fork env
  then [SExec [PATH_86BOX; PATH_86BOX; "-C"; conf; "-S"]%string]
  else [].

(** What [emu_select_list] does once the loop was left by the line
    feed with [arr[run_idx]] being [name]: the path is resolved and the
    program started. *)
Definition launch_choice (env : sys_env) (name : string) (lang : option string)
           (is_fullscreen is_settings : Z) : list sys_effect * ending :=
  match emu_get_directory env with
  | (None, e) => (e, Exits EXIT_FAILURE)
  | (Some path, e) =>
      let sz := size_wrap (strlen path + strlen name + 3) in
      let p := snprintf sz (path ++ "/" ++ name) in
      let base := emu_basename p in
      match env_stat env p with
      | StatOk =>
          (e ++ [SStdout ("emubox: using config: " ++ base ++ LF)]
             ++ (if is_settings =? 0 then emu_launch_box env p lang is_fullscreen
                 else emu_launch_settings env p),
           Returns)
      | StatENOENT =>
          (e ++ [SStderr ("emubox: config " ++ DQ ++ base ++ DQ
                          ++ " does not exists." ++ LF)], Returns)
      | StatError => (e ++ [SWarn "stat"], Returns)
      end
  end.

(** Length of the longest name. *)
Definition max_len (names : list string) : Z :=
  fold_right (fun s acc => Z.max (strlen s) acc) 0 names.

(** A session that is over: any outcome but waiting for a key. *)
Definition ended (o : outcome) : Prop :=
  match o with
  | Browsing _ => False
  | _ => True
  end.

(** The codes the [switch] of the loop, or the test behind it, reacts
    to. *)
Definition bound_key (ch : Z) : Prop :=
  ch = KEY_UP \/ ch = KEY_DOWN \/ ch = KEY_RIGHT \/ ch = KEY_LEFT \/
  ch = KEY_BACKSPACE \/ ch = KEY_NEWLINE.

(** What a session writes behind its last page when it ends. *)
Definition ending_trace (o : outcome) : list effect :=
  match o with
  | Chosen _ | Cancelled => [EEndwin]
  | IndexOutOfRange => [EEndwin; EStderr msg_out_of_range]
  | _ => []
  end.

(** What the render loop draws for the entry at index [i]. *)
Definition row_draw (run xs0 i : Z) (name : string) : list draw :=
  (if i =? run then [DWattron] else [])
    ++ prints (i - xs0) i name
    ++ (if i =? run then [DWattroff] else []).

(** The indices [a], [a + 1], ... below [b]. *)
Definition indices_from (a b : Z) : list Z :=
  map (fun k => a + Z.of_nat k) (seq 0 (Z.to_nat (b - a))).

(** The file name a configuration name stands for: [".cfg"] is added
    unless the name holds it already. *)
Definition cfg_file (name : string) : string :=
  if strstr name ".cfg" then name else (name ++ ".cfg")%string.

(** The paths [unlink] was called with, in order. *)
Fixpoint unlinked (t : list sys_effect) : list string :=
  match t with
  | [] => []
  | SUnlink p :: t' => p :: unlinked t'
  | _ :: t' => unlinked t'
  end.


(* ------------------------------------------------------------------ *)
(** ** Machine integers: facts *)

Lemma int_wrap_id (z : Z) : INT_MIN <= z <= INT_MAX -> int_wrap z = z.
Proof.
  unfold INT_MIN, INT_MAX, int_wrap. intros H.
  rewrite Z.mod_small by lia. lia.
Qed.

Lemma size_wrap_id (z : Z) : 0 <= z <= SIZE_MAX -> size_wrap z = z.
Proof.
  unfold SIZE_MAX, size_wrap. intros H. apply Z.mod_small. lia.
Qed.

(* ------------------------------------------------------------------ *)
(** ** [strcmp] is a total order on C strings *)

Lemma byte_val_range (c : ascii) : 0 <= byte_val c < 256.
Proof.
  unfold byte_val. pose proof (N_ascii_bounded c) as H. lia.
Qed.

Lemma byte_val_inj (c d : ascii) : byte_val c = byte_val d -> c = d.
Proof.
  unfold byte_val. intros H.
  rewrite <- (ascii_N_embedding c), <- (ascii_N_embedding d).
  f_equal. lia.
Qed.

Lemma strcmp_refl (a : string) : strcmp a a = 0.
Proof.
  induction a as [|c a IH]; simpl; [reflexivity|].
  rewrite Z.eqb_refl. destruct (byte_val c =? 0); auto.
Qed.

Lemma strcmp_swap (a b : string) : strcmp b a = - strcmp a b.
Proof.
  revert b. induction a as [|c a IH]; intros [|d b]; simpl; try lia.
  rewrite (Z.eqb_sym (byte_val d) (byte_val c)).
  destruct (byte_val c =? byte_val d) eqn:E.
  - apply Z.eqb_eq in E. rewrite <- E.
    destruct (byte_val c =? 0); [reflexivity | apply IH].
  - lia.
Qed.

Lemma strcmp_trans (a b c : string) :
  strcmp a b <= 0 -> strcmp b c <= 0 -> strcmp a c <= 0.
Proof.
  revert b c.
  induction a as [|x a IH]; intros [|y b] [|z c]; simpl;
    try pose proof (byte_val_range x); try pose proof (byte_val_range y);
    try pose proof (byte_val_range z);
    repeat match goal with
           | |- context [Z.eqb ?u ?v] => destruct (Z.eqb_spec u v)
           end;
    try lia.
  apply IH.
Qed.

Lemma no_nul_cons (c : ascii) (s : string) :
  no_nul (String c s) <-> byte_val c <> 0 /\ no_nul s.
Proof.
  unfold no_nul. simpl. split.
  - intros H. inversion H; subst. auto.
  - intros [H1 H2]. constructor; assumption.
Qed.

Lemma strcmp_eq (a b : string) :
  no_nul a -> no_nul b -> strcmp a b = 0 -> a = b.
Proof.
  revert b. induction a as [|x a IH]; intros [|y b] Ha Hb; simpl.
  - reflexivity.
  - apply no_nul_cons in Hb. lia.
  - apply no_nul_cons in Ha. lia.
  - apply no_nul_cons in Ha. apply no_nul_cons in Hb.
    destruct Ha as [Hx Ha]. destruct Hb as [Hy Hb].
    destruct (byte_val x =? byte_val y) eqn:E.
    + apply Z.eqb_eq in E. apply byte_val_inj in E. subst y.
      destruct (byte_val x =? 0) eqn:E0.
      * apply Z.eqb_eq in E0. contradiction.
      * intros H. f_equal. apply IH; assumption.
    + apply Z.eqb_neq in E. lia.
Qed.

Lemma strcmp_lex (a b : string) :
  no_nul a -> no_nul b ->
  (strcmp a b <= 0 <-> lex_le (bytes_of a) (bytes_of b)).
Proof.
  revert b. induction a as [|x a IH]; intros [|y b] Ha Hb; simpl.
  - split; [trivial | lia].
  - pose proof (byte_val_range y). split; [trivial | lia].
  - apply no_nul_cons in Ha. pose proof (byte_val_range x).
    split; [lia | tauto].
  - apply no_nul_cons in Ha. apply no_nul_cons in Hb.
    destruct Ha as [Hx Ha]. destruct Hb as [Hy Hb].
    destruct (byte_val x =? byte_val y) eqn:E.
    + apply Z.eqb_eq in E.
      destruct (byte_val x =? 0) eqn:E0; [apply Z.eqb_eq in E0; lia|].
      rewrite (IH b Ha Hb). split; [intros H; right; auto|].
      intros [H | [_ H]]; [lia | exact H].
    + apply Z.eqb_neq in E. split; [intros H; left; lia|].
      intros [H | [H _]]; lia.
Qed.

(* ------------------------------------------------------------------ *)
(** ** [qsort]: sorted, a rearrangement, and the only one *)

Section Qsort.
Context {A : Type}.
Variable cmp : A -> A -> Z.
Hypothesis cmp_swap : forall x y, cmp y x = - cmp x y.
Hypothesis cmp_trans : forall x y z, cmp x y <= 0 -> cmp y z <= 0 -> cmp x z <= 0.

Lemma qsort_insert_perm (x : A) (l : list A) :
  Permutation (x :: l) (qsort_insert cmp x l).
Proof.
  induction l as [|y t IH]; simpl; [apply Permutation_refl|].
  destruct (cmp x y <=? 0); [apply Permutation_refl|].
  eapply perm_trans; [apply perm_swap|]. apply perm_skip, IH.
Qed.

Lemma qsort_perm (l : list A) : Permutation l (qsort cmp l).
Proof.
  induction l as [|x t IH]; simpl; [constructor|].
  eapply perm_trans; [apply perm_skip, IH|]. apply qsort_insert_perm.
Qed.

Lemma qsort_length (l : list A) : List.length (qsort cmp l) = List.length l.
Proof. symmetry. apply Permutation_length, qsort_perm. Qed.

Lemma qsort_insert_sorted (x : A) (l : list A) :
  StronglySorted (cmp_le cmp) l -> StronglySorted (cmp_le cmp) (qsort_insert cmp x l).
Proof.
  induction 1 as [|y t Hs IH Hall]; simpl.
  - constructor; constructor.
  - destruct (cmp x y <=? 0) eqn:E.
    + apply Z.leb_le in E. constructor.
      * constructor; assumption.
      * constructor; [exact E|].
        eapply Forall_impl; [|exact Hall].
        intros z Hz. eapply cmp_trans; eassumption.
    + apply Z.leb_gt in E. constructor; [exact IH|].
      apply (Permutation_Forall (qsort_insert_perm x t)).
      constructor; [|exact Hall].
      unfold cmp_le. rewrite cmp_swap. lia.
Qed.

Lemma qsort_sorted (l : list A) : StronglySorted (cmp_le cmp) (qsort cmp l).
Proof.
  induction l as [|x t IH]; simpl; [constructor|].
  apply qsort_insert_sorted, IH.
Qed.

Lemma sorted_perm_eq (l1 l2 : list A) :
  (forall x y, In x l1 -> In y l1 -> cmp x y = 0 -> x = y) ->
  StronglySorted (cmp_le cmp) l1 -> StronglySorted (cmp_le cmp) l2 ->
  Permutation l1 l2 -> l1 = l2.
Proof.
  intros Heq H1. revert l2.
  induction H1 as [|x t Hs IH Hall]; intros l2 H2 Hp.
  - apply Permutation_nil in Hp. subst. reflexivity.
  - destruct H2 as [|y u Hs2 Hall2].
    + apply Permutation_sym, Permutation_nil in Hp. discriminate.
    + assert (Exy : x = y).
      { assert (Hx : In x (y :: u))
          by (eapply Permutation_in; [exact Hp | left; reflexivity]).
        assert (Hy : In y (x :: t))
          by (eapply Permutation_in;
              [apply Permutation_sym; exact Hp | left; reflexivity]).
        destruct Hx as [Hx | Hx]; [auto|].
        destruct Hy as [Hy | Hy]; [auto|].
        rewrite Forall_forall in Hall, Hall2.
        pose proof (Hall _ Hy) as L1. pose proof (Hall2 _ Hx) as L2.
        unfold cmp_le in L1, L2. rewrite (cmp_swap x y) in L2.
        apply Heq; [left; reflexivity | right; exact Hy | lia]. }
      subst y. f_equal. apply IH.
      * intros a b Ha Hb. apply Heq; right; assumption.
      * exact Hs2.
      * eapply Permutation_cons_inv; exact Hp.
Qed.

(** Whatever rearrangement a sorting routine returns, if it is sorted
    it is the list [qsort] returns. *)
Lemma qsort_unique (l s : list A) :
  (forall x y, In x l -> In y l -> cmp x y = 0 -> x = y) ->
  Permutation l s -> StronglySorted (cmp_le cmp) s -> s = qsort cmp l.
Proof.
  intros Heq Hp Hs. apply sorted_perm_eq; [ | exact Hs | apply qsort_sorted | ].
  - intros x y Hx Hy. apply Heq; eapply Permutation_in;
      try (apply Permutation_sym; exact Hp); assumption.
  - eapply perm_trans; [apply Permutation_sym; exact Hp | apply qsort_perm].
Qed.

Lemma qsort_perm_invariant (l1 l2 : list A) :
  (forall x y, In x l1 -> In y l1 -> cmp x y = 0 -> x = y) ->
  Permutation l1 l2 -> qsort cmp l1 = qsort cmp l2.
Proof.
  intros Heq Hp. symmetry. apply qsort_unique; [exact Heq | | apply qsort_sorted].
  eapply perm_trans; [exact Hp | apply qsort_perm].
Qed.
End Qsort.

(* ------------------------------------------------------------------ *)
(** ** The array after the directory was read and sorted *)

Lemma strlen_nonneg (s : string) : 0 <= strlen s.
Proof. unfold strlen. lia. Qed.

Lemma total_len_bounds (names : list string) :
  Forall name_ok names ->
  Z.of_nat (List.length names) <= total_len names <= 255 * Z.of_nat (List.length names).
Proof.
  induction 1 as [|s t Hs _ IH]; simpl; [lia|].
  unfold name_ok in Hs. lia.
Qed.

Lemma dir_names_cons (den : dirent) (rest : list dirent) :
  dir_names (den :: rest) =
  if is_dot den then dir_names rest
  else if d_type den =? DT_REG then d_name den :: dir_names rest
       else dir_names rest.
Proof.
  unfold dir_names. simpl.
  destruct (is_dot den); simpl; [reflexivity|].
  destruct (d_type den =? DT_REG); reflexivity.
Qed.

Lemma content_len_name_sz (dirents : list dirent) :
  forall cl,
    0 <= name_sz cl ->
    name_sz cl + total_len (dir_names dirents) <= SIZE_MAX ->
    name_sz (fold_left content_len_step dirents cl)
    = name_sz cl + total_len (dir_names dirents).
Proof.
  induction dirents as [|den rest IH]; intros cl H0 Hmax; simpl.
  - unfold dir_names; simpl. lia.
  - rewrite dir_names_cons in *. unfold content_len_step.
    destruct (is_dot den); [apply IH; assumption|].
    destruct (d_type den =? DT_REG); [|apply IH; assumption].
    simpl in Hmax. pose proof (strlen_nonneg (d_name den)) as Hl.
    assert (Hrest : 0 <= total_len (dir_names rest)).
    { clear. induction (dir_names rest) as [|s t IHt]; simpl; [lia|].
      pose proof (strlen_nonneg s). lia. }
    rewrite IH; simpl; rewrite size_wrap_id by lia; lia.
Qed.

Lemma list_set_app {A : Type} (l1 : list A) (x : A) (l2 : list A) (v : A) :
  list_set (l1 ++ x :: l2) (List.length l1) v = Some (l1 ++ v :: l2).
Proof.
  induction l1 as [|y t IH]; simpl; [reflexivity|]. rewrite IH. reflexivity.
Qed.

Lemma fill_spec (dirents : list dirent) :
  forall (names0 : list string) (k : nat),
    (List.length (dir_names dirents) <= k)%nat ->
    Z.of_nat (List.length names0 + List.length (dir_names dirents)) <= INT_MAX ->
    fill dirents (map Some names0 ++ repeat None k) (Z.of_nat (List.length names0))
    = Some (map Some (names0 ++ dir_names dirents)
              ++ repeat None (k - List.length (dir_names dirents)),
            Z.of_nat (List.length names0 + List.length (dir_names dirents))).
Proof.
  induction dirents as [|den rest IH]; intros names0 k Hk Hmax.
  - unfold dir_names; simpl.
    rewrite app_nil_r, Nat.sub_0_r, Nat.add_0_r. reflexivity.
  - rewrite dir_names_cons in *. simpl.
    destruct (is_dot den); [apply IH; assumption|].
    destruct (d_type den =? DT_REG); [|apply IH; assumption].
    simpl in Hk, Hmax. destruct k as [|k']; [lia|].
    unfold arr_set.
    destruct (Z.ltb_spec (Z.of_nat (List.length names0)) 0) as [Hneg|_]; [lia|].
    rewrite Nat2Z.id. simpl repeat.
    rewrite <- (length_map Some names0) at 1.
    rewrite list_set_app.
    rewrite int_wrap_id by (unfold INT_MIN, INT_MAX in *; lia).
    replace (Z.of_nat (List.length names0) + 1)
      with (Z.of_nat (List.length (names0 ++ [d_name den])))
      by (rewrite length_app; simpl; lia).
    replace (map Some names0 ++ Some (d_name den) :: repeat None k')
      with (map Some (names0 ++ [d_name den]) ++ repeat None k')
      by (rewrite map_app, <- app_assoc; reflexivity).
    rewrite IH.
    + rewrite <- app_assoc. simpl. rewrite length_app. simpl.
      do 2 f_equal. lia.
    + lia.
    + rewrite length_app. simpl. lia.
Qed.

Lemma deref_all_map (names : list string) : deref_all (map Some names) = Some names.
Proof.
  induction names as [|s t IH]; simpl; [reflexivity|]. rewrite IH. reflexivity.
Qed.

Lemma qsort_prefix_spec (names : list string) (k : nat) :
  qsort_prefix (map Some names ++ repeat None k) (Z.of_nat (List.length names))
  = Some (map Some (qsort qsort_compare names) ++ repeat None k).
Proof.
  unfold qsort_prefix. rewrite Nat2Z.id.
  destruct (Nat.ltb_spec (List.length (map Some names ++ repeat (@None string) k))
                         (List.length names)) as [H|_].
  - rewrite length_app, length_map in H. lia.
  - rewrite <- (length_map Some names).
    rewrite firstn_app, firstn_all, Nat.sub_diag, firstn_O, app_nil_r.
    rewrite skipn_app, skipn_all, Nat.sub_diag, skipn_O. simpl.
    rewrite deref_all_map. reflexivity.
Qed.

Lemma slots_bound (dirents : list dirent) :
  dir_ok dirents -> entry_count dirents + 1 <= slots dirents <= SIZE_MAX.
Proof.
  intros [Hn Hc]. pose proof (total_len_bounds _ Hn) as Hb.
  unfold slots, entry_count, SIZE_MAX, INT_MAX in *. lia.
Qed.

Lemma spare_pos (dirents : list dirent) : dir_ok dirents -> (1 <= spare dirents)%nat.
Proof.
  intros H. pose proof (slots_bound _ H) as Hb.
  unfold spare, entry_count in *. lia.
Qed.

Lemma content_len_slots (dirents : list dirent) :
  dir_ok dirents ->
  size_wrap (name_sz (emu_content_len dirents) + 1) = slots dirents.
Proof.
  intros H. pose proof (slots_bound _ H) as Hb.
  unfold emu_content_len; simpl.
  unfold slots, entry_count in *.
  rewrite content_len_name_sz; simpl; try lia.
  apply size_wrap_id. lia.
Qed.

Lemma build_array_spec (dirents : list dirent) :
  dir_ok dirents ->
  build_array dirents
  = Some (map Some (list_entries dirents) ++ repeat None (spare dirents),
          entry_count dirents).
Proof.
  intros H. pose proof (slots_bound _ H) as Hb. pose proof H as [Hn Hc].
  unfold build_array. rewrite content_len_slots by exact H.
  unfold calloc.
  pose proof (fill_spec dirents [] (Z.to_nat (slots dirents))) as F.
  simpl in F. rewrite F; clear F; unfold entry_count in *; try lia.
  fold (spare dirents).
  destruct (Z.eqb_spec (Z.of_nat (List.length (dir_names dirents))) 0) as [E|E].
  - unfold list_entries. destruct (dir_names dirents); [reflexivity | discriminate].
  - rewrite qsort_prefix_spec. reflexivity.
Qed.

Lemma list_entries_length (dirents : list dirent) :
  Z.of_nat (List.length (list_entries dirents)) = entry_count dirents.
Proof.
  unfold list_entries, entry_count.
  rewrite <- (Permutation_length (qsort_perm qsort_compare (dir_names dirents))).
  reflexivity.
Qed.

Lemma arr_get_entry (es : list string) (k : nat) (i : Z) :
  0 <= i < Z.of_nat (List.length es) ->
  arr_get (map Some es ++ repeat None k) i = Some (Some (nth (Z.to_nat i) es EmptyString)).
Proof.
  intros H. unfold arr_get.
  destruct (Z.ltb_spec i 0) as [Hneg|_]; [lia|].
  rewrite nth_error_app1 by (rewrite length_map; lia).
  rewrite nth_error_map.
  rewrite (nth_error_nth' es EmptyString) by lia. reflexivity.
Qed.

Lemma arr_get_null (es : list string) (k : nat) (i : Z) :
  Z.of_nat (List.length es) <= i < Z.of_nat (List.length es + k) ->
  arr_get (map Some es ++ repeat None k) i = Some None.
Proof.
  intros H. unfold arr_get.
  destruct (Z.ltb_spec i 0) as [Hneg|_]; [lia|].
  rewrite nth_error_app2 by (rewrite length_map; lia).
  rewrite length_map. apply nth_error_repeat. lia.
Qed.

(* ------------------------------------------------------------------ *)
(** ** The render loop *)

Lemma render_rows_spec (arr : array) (pre_idx xs0 run : Z) :
  arr_ok arr pre_idx -> 0 <= xs0 <= 9990 ->
  forall (fuel : nat) (new_idx xw : Z),
    xs0 <= new_idx <= xs0 + 10 -> new_idx < pre_idx -> new_idx <= 9999 ->
    (Z.to_nat (xs0 + 10 - new_idx) < fuel)%nat ->
    r_exit (render_rows fuel arr xs0 run new_idx xw) = page_exit pre_idx xs0 /\
    Forall (fun i => new_idx <= i <= Z.min (xs0 + 10) pre_idx)
           (r_probes (render_rows fuel arr xs0 run new_idx xw)).
Proof.
  intros [Hpre [Hnames Hnull]] Hxs.
  assert (Hw : forall z, -10 <= z <= 10001 -> int_wrap z = z)
    by (intros z Hz; apply int_wrap_id; unfold INT_MIN, INT_MAX; lia).
  induction fuel as [|fuel IH]; intros new_idx xw Hn Hlt H9 Hfuel; [lia|].
  cbn [render_rows]. rewrite !Hw by lia.
  destruct (Z.ltb_spec new_idx (xs0 + 10)) as [Hin|Hout].
  - destruct (Hnames new_idx) as [name Hname]; [lia|]. rewrite Hname.
    destruct (Z.gtb_spec (new_idx + 1) 9999) as [Hbig|Hsmall].
    + cbn [r_exit r_probes]. split.
      * unfold page_exit.
        destruct (Z.eqb_spec xs0 9990); [|lia].
        destruct (Z.leb_spec 10000 pre_idx); [reflexivity | lia].
      * repeat constructor; lia.
    + destruct (Z.eq_dec (new_idx + 1) pre_idx) as [Elast|Emore].
      * rewrite Elast, Hnull. cbn [r_exit r_probes]. split.
        -- unfold page_exit.
           destruct (Z.eqb_spec xs0 9990); destruct (Z.leb_spec 10000 pre_idx);
             destruct (Z.leb_spec pre_idx (xs0 + 10)); simpl; try reflexivity; lia.
        -- repeat constructor; lia.
      * destruct (Hnames (new_idx + 1)) as [name' Hname']; [lia|]. rewrite Hname'.
        cbn [r_exit r_probes].
        destruct (IH (new_idx + 1) (int_wrap (xw + 1))) as [He Hp]; try lia.
        split; [exact He|].
        constructor; [lia|]. constructor; [lia|].
        eapply Forall_impl; [|exact Hp]. simpl. intros i Hi. lia.
  - cbn [r_exit r_probes]. split; [|constructor].
    unfold page_exit.
    destruct (Z.eqb_spec xs0 9990); destruct (Z.leb_spec 10000 pre_idx);
      destruct (Z.leb_spec pre_idx (xs0 + 10)); simpl; try reflexivity; lia.
Qed.

Lemma render_exit_eq (cl : content_len_info) (arr : array) (s : nav) :
  r_exit (render cl arr s)
  = r_exit (render_rows row_fuel arr (xs s) (run_idx s) (xs s) 0).
Proof.
  unfold render.
  destruct (render_rows row_fuel arr (xs s) (run_idx s) (xs s) 0). reflexivity.
Qed.

Lemma render_probes_eq (cl : content_len_info) (arr : array) (s : nav) :
  r_probes (render cl arr s)
  = r_probes (render_rows row_fuel arr (xs s) (run_idx s) (xs s) 0).
Proof.
  unfold render.
  destruct (render_rows row_fuel arr (xs s) (run_idx s) (xs s) 0). reflexivity.
Qed.

Lemma render_draw_eq (cl : content_len_info) (arr : array) (s : nav) :
  r_draw (render cl arr s)
  = DClearFrame (row_sz cl)
      :: r_draw (render_rows row_fuel arr (xs s) (run_idx s) (xs s) 0).
Proof.
  unfold render.
  destruct (render_rows row_fuel arr (xs s) (run_idx s) (xs s) 0). reflexivity.
Qed.

Lemma int_wrap_range (z : Z) : INT_MIN <= int_wrap z <= INT_MAX.
Proof.
  unfold INT_MIN, INT_MAX, int_wrap.
  pose proof (Z.mod_pos_bound (z + 2147483648) 4294967296 ltac:(lia)). lia.
Qed.

Lemma int_wrap_add10 (x : Z) : INT_MIN <= x <= INT_MAX -> int_wrap (x + 10) <= x + 10.
Proof.
  intros H. destruct (Z_le_gt_dec (x + 10) INT_MAX) as [Hle|Hgt].
  - rewrite int_wrap_id by (unfold INT_MIN, INT_MAX in *; lia). lia.
  - unfold INT_MIN, INT_MAX, int_wrap in *.
    replace (x + 10 + 2147483648)
      with (x + 10 + 2147483648 - 4294967296 + 1 * 4294967296) by lia.
    rewrite Z.mod_add by lia. rewrite Z.mod_small by lia. lia.
Qed.

(** The fuel of the render loop is never used up: from any state the
    loop body runs at most ten times. *)
Lemma render_rows_total (arr : array) (xs0 run : Z) :
  forall (fuel : nat) (new_idx xw : Z),
    INT_MIN <= new_idx ->
    (Z.to_nat (int_wrap (xs0 + 10) - new_idx) < fuel)%nat ->
    r_exit (render_rows fuel arr xs0 run new_idx xw) <> RenderFuel.
Proof.
  induction fuel as [|fuel IH]; intros new_idx xw Hlo Hfuel; [lia|].
  cbn [render_rows].
  destruct (Z.ltb_spec new_idx (int_wrap (xs0 + 10))) as [Hin|Hout];
    [|cbn [r_exit]; discriminate].
  pose proof (int_wrap_range (xs0 + 10)) as Hr.
  rewrite (int_wrap_id (new_idx + 1)) by (unfold INT_MIN, INT_MAX in *; lia).
  destruct (arr_get arr new_idx) as [[name|]|]; cbn [r_exit]; try discriminate.
  destruct (new_idx + 1 >? 9999); cbn [r_exit]; [discriminate|].
  destruct (arr_get arr (new_idx + 1)) as [[name'|]|]; cbn [r_exit]; try discriminate.
  apply IH; unfold INT_MIN in *; lia.
Qed.

Lemma render_total (cl : content_len_info) (arr : array) (s : nav) :
  INT_MIN <= xs s <= INT_MAX -> r_exit (render cl arr s) <> RenderFuel.
Proof.
  intros H. rewrite render_exit_eq.
  pose proof (int_wrap_add10 (xs s) H) as Hw.
  apply render_rows_total; unfold row_fuel; lia.
Qed.

Lemma render_spec (cl : content_len_info) (arr : array) (pre_idx : Z) (s : nav) :
  arr_ok arr pre_idx -> loop_inv pre_idx s ->
  r_exit (render cl arr s) = page_exit pre_idx (xs s) /\
  Forall (fun i => xs s <= i <= Z.min (xs s + 10) pre_idx) (r_probes (render cl arr s)).
Proof.
  intros Harr (Hxs & _ & Hpage & _).
  rewrite render_exit_eq, render_probes_eq.
  apply (render_rows_spec arr pre_idx (xs s) (run_idx s) Harr Hxs row_fuel (xs s) 0);
    unfold row_fuel; lia.
Qed.

(** The drawing only looks at [xs] and [run_idx]. *)
Lemma render_after_render (cl : content_len_info) (arr : array) (s : nav) (e : render_exit) :
  render cl arr (after_render s e) = render cl arr s.
Proof. unfold render. destruct e; reflexivity. Qed.

Lemma after_render_idem (s : nav) (e : render_exit) :
  after_render (after_render s e) e = after_render s e.
Proof. destruct e; reflexivity. Qed.

Lemma render_wait_inv (cl : content_len_info) (arr : array) (pre_idx : Z) (s : nav) :
  arr_ok arr pre_idx -> loop_inv pre_idx s ->
  (xs s = 9990 /\ 10000 <= pre_idx /\ r_exit (render cl arr s) = RenderOutOfRange) \/
  ((xs s = 9990 -> pre_idx < 10000) /\
   (r_exit (render cl arr s) = RenderBreak \/ r_exit (render cl arr s) = RenderEnd) /\
   wait_inv pre_idx (after_render s (r_exit (render cl arr s)))).
Proof.
  intros Harr Hinv. destruct (render_spec cl arr pre_idx s Harr Hinv) as [He _].
  rewrite He. unfold page_exit.
  destruct Hinv as (Hxs & Hmod & Hpage & Hrun & Hflag & Hlast).
  destruct (Z.eqb_spec (xs s) 9990) as [E|E];
    destruct (Z.leb_spec 10000 pre_idx) as [B|B]; simpl.
  - left. auto.
  - right. destruct (Z.leb_spec pre_idx (xs s + 10)); [|lia].
    split; [lia|]. split; [auto|].
    unfold wait_inv, loop_inv; simpl. repeat split; auto; lia.
  - right. split; [lia|].
    destruct (Z.leb_spec pre_idx (xs s + 10)); (split; [auto|]);
      unfold wait_inv, loop_inv; simpl; repeat split; auto; lia.
  - right. split; [lia|].
    destruct (Z.leb_spec pre_idx (xs s + 10)); (split; [auto|]);
      unfold wait_inv, loop_inv; simpl; repeat split; auto; lia.
Qed.

(* ------------------------------------------------------------------ *)
(** ** Keys keep the invariant *)

Lemma mod10_step (x : Z) : x mod 10 = 0 -> (x + 10) mod 10 = 0 /\ (x - 10) mod 10 = 0.
Proof.
  intros H. split.
  - replace (x + 10) with (x + 1 * 10) by lia. rewrite Z.mod_add by lia. exact H.
  - replace (x - 10) with (x + (-1) * 10) by lia. rewrite Z.mod_add by lia. exact H.
Qed.

Lemma mod10_pos (x : Z) : x mod 10 = 0 -> 0 < x -> 10 <= x.
Proof.
  intros H Hx. pose proof (Z.div_mod x 10 ltac:(lia)) as D. lia.
Qed.

Lemma mod10_below (x b : Z) : x mod 10 = 0 -> b mod 10 = 0 -> x < b -> x + 10 <= b.
Proof.
  intros H Hb Hx.
  pose proof (Z.div_mod x 10 ltac:(lia)) as D.
  pose proof (Z.div_mod b 10 ltac:(lia)) as D'. lia.
Qed.

Lemma on_key_inv (pre_idx ch : Z) (s s' : nav) :
  pre_idx <= INT_MAX ->
  wait_inv pre_idx s -> on_key pre_idx ch s = KeyContinue s' -> loop_inv pre_idx s'.
Proof.
  intros Hmax [Hinv [Hset Hcap]] Hk.
  pose proof Hinv as (Hxs & Hmod & Hpage & Hrun & Hflag & Hlast).
  assert (Hw : forall z, -10 <= z <= INT_MAX -> int_wrap z = z)
    by (intros z Hz; apply int_wrap_id; unfold INT_MIN, INT_MAX in *; lia).
  unfold INT_MAX in *. unfold on_key in Hk.
  destruct (ch =? KEY_UP).
  { injection Hk as <-. rewrite Hw by (unfold INT_MAX; lia).
    unfold loop_inv; simpl.
    destruct (Z.ltb_spec (run_idx s - 1) 0); repeat split; auto; lia. }
  destruct (ch =? KEY_DOWN).
  { injection Hk as <-. rewrite !Hw by (unfold INT_MAX; lia).
    unfold loop_inv; simpl.
    destruct (Z.geb_spec (run_idx s + 1) pre_idx); repeat split; auto; lia. }
  destruct (ch =? KEY_RIGHT).
  { destruct (Z.eqb_spec (end_page s) 0) as [E0|E0];
      [|injection Hk as <-; exact Hinv].
    injection Hk as <-. rewrite Hw by (unfold INT_MAX; lia).
    assert (Hbelow : xs s + 10 <= 9990).
    { destruct (Z.eq_dec (xs s) 9990) as [E|E]; [lia|].
      apply mod10_below; [exact Hmod | reflexivity | lia]. }
    unfold loop_inv; simpl.
    repeat split; auto; try lia. apply mod10_step, Hmod. }
  destruct (ch =? KEY_LEFT).
  { destruct (Z.gtb_spec (xs s) 0) as [Hp|Hp];
      [|injection Hk as <-; exact Hinv].
    injection Hk as <-. rewrite Hw by (unfold INT_MAX; lia).
    pose proof (mod10_pos _ Hmod Hp).
    unfold loop_inv; simpl.
    repeat split; auto; try lia. apply mod10_step, Hmod. }
  destruct (ch =? KEY_BACKSPACE); [discriminate|].
  injection Hk as <-. exact Hinv.
Qed.

(* ------------------------------------------------------------------ *)
(** ** The loop *)

Lemma select_loop_eq (cl : content_len_info) (arr : array) (pre_idx : Z)
      (keys : list Z) (s : nav) :
  select_loop cl arr pre_idx keys s =
  match r_exit (render cl arr s) with
  | RenderOutOfRange =>
      (IndexOutOfRange,
       [EFrame (r_draw (render cl arr s)); EEndwin; EStderr msg_out_of_range])
  | RenderFault _ | RenderFuel => (MemoryFault, [EFrame (r_draw (render cl arr s))])
  | RenderEnd | RenderBreak =>
      key_phase cl arr pre_idx (r_draw (render cl arr s)) keys
                (after_render s (r_exit (render cl arr s)))
  end.
Proof. destruct keys; reflexivity. Qed.

Lemma fst_let (p : outcome * list effect) (x : effect) :
  fst (let '(o, e) := p in (o, x :: e)) = fst p.
Proof. destruct p; reflexivity. Qed.

Lemma snd_let (p : outcome * list effect) (x : effect) :
  snd (let '(o, e) := p in (o, x :: e)) = x :: snd p.
Proof. destruct p; reflexivity. Qed.

Lemma nav0_inv (pre_idx : Z) : 1 <= pre_idx -> loop_inv pre_idx nav0.
Proof. intros H. unfold loop_inv, nav0; simpl. repeat split; auto; lia. Qed.

Local Opaque render select_loop.

Section Loop.
Variable cl : content_len_info.
Variable arr : array.
Variable pre_idx : Z.

(** Starting the loop from the state a drawn page left is starting it
    from the state before the page was drawn. *)
Lemma select_loop_after_render (keys : list Z) (s : nav) :
  select_loop cl arr pre_idx keys (after_render s (r_exit (render cl arr s)))
  = select_loop cl arr pre_idx keys s.
Proof.
  rewrite !select_loop_eq.
  rewrite render_after_render, after_render_idem. reflexivity.
Qed.

Lemma waiting_state (keys : list Z) (s s' : nav) :
  fst (select_loop cl arr pre_idx keys s) = Browsing s' ->
  r_exit (render cl arr s) = RenderEnd \/ r_exit (render cl arr s) = RenderBreak.
Proof.
  rewrite select_loop_eq.
  destruct (r_exit (render cl arr s)); cbn [fst]; intros H;
    try discriminate; auto.
Qed.

Lemma select_loop_keys (keys : list Z) (s : nav) :
  r_exit (render cl arr s) = RenderEnd \/ r_exit (render cl arr s) = RenderBreak ->
  select_loop cl arr pre_idx keys s
  = key_phase cl arr pre_idx (r_draw (render cl arr s)) keys
              (after_render s (r_exit (render cl arr s))).
Proof.
  intros H. rewrite select_loop_eq. destruct H as [H|H]; rewrite H; reflexivity.
Qed.

(** A session that waits for a key goes on from the state it waits in. *)
Lemma select_loop_resume (keys rest : list Z) :
  forall s s',
    fst (select_loop cl arr pre_idx keys s) = Browsing s' ->
    fst (select_loop cl arr pre_idx (keys ++ rest) s)
    = fst (select_loop cl arr pre_idx rest s').
Proof.
  induction keys as [|ch keys IH]; intros s s' H;
    pose proof (waiting_state _ _ _ H) as E;
    rewrite (select_loop_keys _ _ E) in H.
  - cbn [key_phase fst] in H. injection H as <-.
    cbn [app]. rewrite select_loop_after_render. reflexivity.
  - cbn [app]. rewrite (select_loop_keys _ _ E).
    cbn [key_phase] in H |- *.
    destruct (on_key pre_idx ch (after_render s (r_exit (render cl arr s))))
      as [s2|]; [|discriminate].
    destruct (ch =? 10).
    + destruct (arr_get arr (run_idx s2)) as [[name|]|]; discriminate.
    + rewrite fst_let in H. rewrite fst_let. apply IH. exact H.
Qed.

(** Every failure on the index limit ends with the message. *)
Lemma out_of_range_message (keys : list Z) :
  forall s,
    fst (select_loop cl arr pre_idx keys s) = IndexOutOfRange ->
    exists before,
      snd (select_loop cl arr pre_idx keys s)
      = before ++ [EEndwin; EStderr msg_out_of_range].
Proof.
  induction keys as [|ch keys IH]; intros s; rewrite select_loop_eq;
    destruct (r_exit (render cl arr s)); cbn [fst snd key_phase];
    intros H; try discriminate;
    try (exists [EFrame (r_draw (render cl arr s))]; reflexivity);
    (destruct (on_key pre_idx ch _) as [s2|]; [|discriminate];
     destruct (ch =? 10);
     [destruct (arr_get arr (run_idx s2)) as [[name|]|]; discriminate|];
     rewrite fst_let in H; rewrite snd_let;
     destruct (IH s2 H) as [before Hb]; rewrite Hb;
     exists (EFrame (r_draw (render cl arr s)) :: before); reflexivity).
Qed.

Hypothesis Harr : arr_ok arr pre_idx.

Lemma key_phase_inv (d : list draw) (keys : list Z) (s1 : nav) :
  (forall ch rest s2, keys = ch :: rest -> loop_inv pre_idx s2 ->
                      outcome_ok arr pre_idx (fst (select_loop cl arr pre_idx rest s2))) ->
  wait_inv pre_idx s1 ->
  outcome_ok arr pre_idx (fst (key_phase cl arr pre_idx d keys s1)).
Proof.
  pose proof Harr as [Hpre [Hnames _]].
  intros IH Hs1. destruct keys as [|ch rest]; cbn [key_phase].
  - exact Hs1.
  - destruct (on_key pre_idx ch s1) as [s2|] eqn:K; [|exact I].
    assert (H2 : loop_inv pre_idx s2)
      by (eapply on_key_inv; [lia | exact Hs1 | exact K]).
    destruct (ch =? 10).
    + pose proof H2 as (_ & _ & _ & Hrun & _).
      destruct (Hnames (run_idx s2) Hrun) as [name Hname]. rewrite Hname.
      exists (run_idx s2). auto.
    + rewrite fst_let. apply (IH ch rest s2 eq_refl H2).
Qed.

Lemma select_loop_inv (keys : list Z) :
  forall s, loop_inv pre_idx s ->
            outcome_ok arr pre_idx (fst (select_loop cl arr pre_idx keys s)).
Proof.
  induction keys as [|ch keys IH]; intros s Hs;
    (destruct (render_wait_inv cl arr pre_idx s Harr Hs)
      as [(_ & Hbig & E) | (_ & E & Hw)];
     [rewrite select_loop_eq, E; exact Hbig|]);
    rewrite select_loop_keys by tauto;
    apply key_phase_inv; try exact Hw.
  - intros c r s2 Hnil. discriminate Hnil.
  - intros c r s2 Hcons. injection Hcons as _ <-. apply IH.
Qed.

Lemma page_exit_more (xs0 : Z) :
  xs0 + 10 < pre_idx -> xs0 <> 9990 -> page_exit pre_idx xs0 = RenderEnd.
Proof.
  intros H H9. unfold page_exit.
  destruct (Z.eqb_spec xs0 9990); [lia|].
  destruct (Z.leb_spec pre_idx (xs0 + 10)); [lia | reflexivity].
Qed.

(** With more than ten entries the first page is drawn and the
    session waits on it. *)
Lemma first_page :
  10 < pre_idx -> fst (select_loop cl arr pre_idx [] nav0) = Browsing nav0.
Proof.
  intros Hbig.
  assert (Hn : 1 <= pre_idx) by lia.
  destruct (render_spec cl arr pre_idx nav0 Harr (nav0_inv _ Hn)) as [E _].
  rewrite page_exit_more in E by (cbn [xs nav0]; lia).
  rewrite select_loop_keys by tauto. rewrite E. reflexivity.
Qed.

(** With more than 9999 entries, paging right from the first page
    ends on the index limit, whatever is typed afterwards. *)
Lemma next_page_limit (rest : list Z) (j : nat) :
  10000 <= pre_idx ->
  forall s, loop_inv pre_idx s -> xs s = 9990 - 10 * Z.of_nat j ->
            end_page s = 0 ->
            fst (select_loop cl arr pre_idx (repeat KEY_RIGHT j ++ rest) s)
            = IndexOutOfRange.
Proof.
  intros Hbig. pose proof Harr as [Hpre _].
  induction j as [|j IH]; intros s Hs Hx He;
    pose proof (render_spec cl arr pre_idx s Harr Hs) as [E _];
    unfold page_exit in E.
  - destruct (Z.eqb_spec (xs s) 9990); [|lia].
    destruct (Z.leb_spec 10000 pre_idx); [|lia]. simpl in E.
    rewrite select_loop_eq, E. reflexivity.
  - destruct (Z.eqb_spec (xs s) 9990); [lia|].
    destruct (Z.leb_spec pre_idx (xs s + 10)); [lia|]. simpl in E.
    rewrite select_loop_keys by tauto. rewrite E.
    cbn [repeat app key_phase after_render].
    pose proof Hs as (Hxs & Hmod & _).
    assert (K : on_key pre_idx KEY_RIGHT s
                = KeyContinue (mkNav (xs s + 10) (xs s + 10) 0)).
    { unfold on_key. cbn [Z.eqb KEY_RIGHT KEY_UP KEY_DOWN Pos.eqb].
      rewrite He. cbn [Z.eqb].
      rewrite int_wrap_id by (unfold INT_MIN, INT_MAX; lia). reflexivity. }
    rewrite K. change (KEY_RIGHT =? 10) with false. cbv iota.
    rewrite fst_let.
    apply IH; unfold loop_inv; cbn [xs run_idx end_page]; try lia.
    repeat split; try lia. apply mod10_step, Hmod.
Qed.
End Loop.

(* ------------------------------------------------------------------ *)
(** ** The session *)

Lemma sorted_array_ok (dirents : list dirent) :
  dir_ok dirents -> 1 <= entry_count dirents ->
  arr_ok (sorted_array dirents) (entry_count dirents).
Proof.
  intros Hd Hn. pose proof (spare_pos _ Hd) as Hs. pose proof Hd as [_ Hmax].
  unfold arr_ok, sorted_array. rewrite <- list_entries_length.
  pose proof (list_entries_length dirents) as L. unfold entry_count in *.
  repeat split; try lia.
  - intros i Hi. eexists. apply arr_get_entry. lia.
  - apply arr_get_null. lia.
Qed.

Lemma sorted_array_length (dirents : list dirent) :
  dir_ok dirents -> Z.of_nat (List.length (sorted_array dirents)) = slots dirents.
Proof.
  intros Hd. pose proof (slots_bound _ Hd) as Hb.
  pose proof (list_entries_length dirents) as L.
  unfold sorted_array. rewrite length_app, length_map, repeat_length.
  unfold spare, entry_count in *. lia.
Qed.

Lemma dir_ok_empty (dirents : list dirent) : dir_names dirents = [] -> dir_ok dirents.
Proof.
  intros H. unfold dir_ok. rewrite H.
  split; [constructor | unfold INT_MAX; simpl; lia].
Qed.

Lemma emu_select_list_empty (dirents : list dirent) (keys : list Z) :
  dir_names dirents = [] ->
  emu_select_list (Some dirents) keys = (EmptySelection, [EStderr msg_no_configs]).
Proof.
  intros H. unfold emu_select_list.
  rewrite (build_array_spec _ (dir_ok_empty _ H)).
  unfold entry_count. rewrite H. reflexivity.
Qed.

Lemma emu_select_list_loop (dirents : list dirent) (keys : list Z) :
  dir_ok dirents -> 1 <= entry_count dirents ->
  emu_select_list (Some dirents) keys
  = (fst (session dirents keys),
     EInitscr (column_sz (emu_content_len dirents)) (row_sz (emu_content_len dirents))
       :: snd (session dirents keys)).
Proof.
  intros Hd Hn. unfold emu_select_list. rewrite (build_array_spec _ Hd).
  destruct (Z.eqb_spec (entry_count dirents) 0) as [E|_]; [lia|].
  fold (sorted_array dirents). fold (session dirents keys).
  destruct (session dirents keys); reflexivity.
Qed.

Lemma session_eq (dirents : list dirent) (keys : list Z) :
  session dirents keys
  = select_loop (emu_content_len dirents) (sorted_array dirents)
                (entry_count dirents) keys nav0.
Proof. reflexivity. Qed.

Lemma emu_select_list_fst (dirents : list dirent) (keys : list Z) :
  dir_ok dirents -> 1 <= entry_count dirents ->
  fst (emu_select_list (Some dirents) keys) = fst (session dirents keys).
Proof. intros Hd Hn. rewrite (emu_select_list_loop _ _ Hd Hn). reflexivity. Qed.

Lemma emu_select_list_snd (dirents : list dirent) (keys : list Z) :
  dir_ok dirents -> 1 <= entry_count dirents ->
  snd (emu_select_list (Some dirents) keys)
  = EInitscr (column_sz (emu_content_len dirents)) (row_sz (emu_content_len dirents))
      :: snd (session dirents keys).
Proof. intros Hd Hn. rewrite (emu_select_list_loop _ _ Hd Hn). reflexivity. Qed.

Lemma session_outcome_ok (dirents : list dirent) (keys : list Z) :
  dir_ok dirents -> 1 <= entry_count dirents ->
  outcome_ok (sorted_array dirents) (entry_count dirents) (fst (session dirents keys)).
Proof.
  intros Hd Hn. rewrite session_eq.
  apply select_loop_inv; [apply sorted_array_ok; assumption | apply nav0_inv, Hn].
Qed.

Lemma session_first_page (dirents : list dirent) :
  dir_ok dirents -> 10 < entry_count dirents ->
  fst (emu_select_list (Some dirents) []) = Browsing nav0.
Proof.
  intros Hd Hbig. assert (Hn : 1 <= entry_count dirents) by lia.
  rewrite (emu_select_list_fst _ _ Hd Hn), session_eq.
  apply first_page; [apply sorted_array_ok; assumption | exact Hbig].
Qed.

Lemma entry_count_cases (dirents : list dirent) :
  dir_names dirents = [] \/ 1 <= entry_count dirents.
Proof.
  unfold entry_count. destruct (dir_names dirents); [left; reflexivity|].
  right. simpl. lia.
Qed.

(** Every state a session waits in satisfies the invariant. *)
Lemma session_wait_inv (dirents : list dirent) (keys : list Z) (s : nav) :
  dir_ok dirents ->
  fst (emu_select_list (Some dirents) keys) = Browsing s ->
  1 <= entry_count dirents /\
  fst (session dirents keys) = Browsing s /\
  wait_inv (entry_count dirents) s.
Proof.
  intros Hd H. destruct (entry_count_cases dirents) as [E|Hn].
  - rewrite (emu_select_list_empty _ _ E) in H. discriminate.
  - rewrite (emu_select_list_fst _ _ Hd Hn) in H.
    split; [exact Hn|]. split; [exact H|].
    pose proof (session_outcome_ok dirents keys Hd Hn) as Ho.
    rewrite H in Ho. exact Ho.
Qed.

(** A page can be drawn again in a state the session waits in. *)
Lemma wait_render (cl : content_len_info) (arr : array) (pre_idx : Z) (s : nav) :
  arr_ok arr pre_idx -> wait_inv pre_idx s ->
  (r_exit (render cl arr s) = RenderEnd \/ r_exit (render cl arr s) = RenderBreak) /\
  after_render s (r_exit (render cl arr s)) = s.
Proof.
  intros Harr [Hinv [Hset Hcap]].
  destruct (render_spec cl arr pre_idx s Harr Hinv) as [E _]. rewrite E.
  unfold page_exit.
  destruct (Z.eqb_spec (xs s) 9990) as [E9|E9];
    destruct (Z.leb_spec 10000 pre_idx) as [B|B]; simpl; try lia;
    (destruct (Z.leb_spec pre_idx (xs s + 10)) as [L|L];
     [split; [auto|]; destruct s as [x r e]; simpl in *; rewrite (Hset L); reflexivity
     | split; [auto | reflexivity]]).
Qed.

(** One key in a session that waits: the [switch] of [on_key] is
    applied to the state waited in, and unless the next page runs into
    the index limit the session waits again, in the state [on_key]
    gave (with [end_page] set by the page drawn). *)
Lemma session_key (dirents : list dirent) (keys : list Z) (ch : Z) (s s2 : nav) :
  dir_ok dirents ->
  fst (emu_select_list (Some dirents) keys) = Browsing s ->
  on_key (entry_count dirents) ch s = KeyContinue s2 ->
  ch <> 10 ->
  (xs s2 = 9990 /\
   fst (emu_select_list (Some dirents) (keys ++ [ch])) = IndexOutOfRange) \/
  (exists s', fst (emu_select_list (Some dirents) (keys ++ [ch])) = Browsing s' /\
              xs s' = xs s2 /\ run_idx s' = run_idx s2).
Proof.
  intros Hd H K Hch.
  destruct (session_wait_inv _ _ _ Hd H) as (Hn & Hs & Hw).
  pose proof (sorted_array_ok _ Hd Hn) as Harr. pose proof Hd as [_ Hmax].
  assert (H2 : loop_inv (entry_count dirents) s2)
    by (eapply on_key_inv; [exact Hmax | exact Hw | exact K]).
  rewrite (emu_select_list_fst _ _ Hd Hn), session_eq.
  rewrite session_eq in Hs.
  rewrite (select_loop_resume _ _ _ keys [ch] nav0 s Hs).
  destruct (wait_render (emu_content_len dirents) _ _ s Harr Hw) as [E Es].
  rewrite (select_loop_keys _ _ _ _ _ E), Es. cbn [key_phase]. rewrite K.
  destruct (Z.eqb_spec ch 10) as [E10|_]; [contradiction|].
  rewrite fst_let.
  destruct (render_wait_inv (emu_content_len dirents) _ _ s2 Harr H2)
    as [(Hx & _ & Ex) | (_ & Ex & _)].
  - left. split; [exact Hx|]. rewrite select_loop_eq, Ex. reflexivity.
  - right. rewrite select_loop_keys by tauto. cbn [key_phase fst].
    eexists. split; [reflexivity|].
    destruct (r_exit (render (emu_content_len dirents) (sorted_array dirents) s2));
      split; reflexivity.
Qed.

(* ------------------------------------------------------------------ *)
(** ** Directories used as examples *)

Lemma dir_okb_ok (dirents : list dirent) : dir_okb dirents = true -> dir_ok dirents.
Proof.
  unfold dir_okb, dir_ok. intros H. apply andb_prop in H. destruct H as [H1 H2].
  split; [|apply Z.leb_le; exact H2].
  apply Forall_forall. intros s Hs.
  rewrite forallb_forall in H1. specialize (H1 s Hs).
  apply andb_prop in H1. destruct H1 as [Ha Hb].
  unfold name_ok. apply Z.leb_le in Ha. apply Z.leb_le in Hb. lia.
Qed.

Lemma no_nulb_ok (names : list string) :
  forallb no_nulb names = true -> Forall no_nul names.
Proof.
  intros H. apply Forall_forall. intros s Hs.
  rewrite forallb_forall in H. specialize (H s Hs).
  unfold no_nulb in H. rewrite forallb_forall in H.
  unfold no_nul. apply Forall_forall. intros c Hc.
  specialize (H c Hc). apply negb_true_iff in H. apply Z.eqb_neq in H. exact H.
Qed.

Lemma strcmp_first (c d : ascii) (a b : string) :
  byte_val c <> byte_val d -> strcmp (String c a) (String d b) = byte_val c - byte_val d.
Proof.
  intros H. cbn [strcmp]. destruct (Z.eqb_spec (byte_val c) (byte_val d)); [contradiction|].
  reflexivity.
Qed.

Lemma byte_val_digit (k : Z) : byte_val (digit k) = 48 + k mod 10.
Proof.
  pose proof (Z.mod_pos_bound k 10 ltac:(lia)) as Hm.
  unfold byte_val, digit. rewrite N_ascii_embedding by lia. lia.
Qed.

Lemma is_dot_cfg (i t : Z) : is_dot (mkDirent (cfg_name i) t) = false.
Proof.
  pose proof (Z.mod_pos_bound (i / 1000) 10 ltac:(lia)) as Hm.
  assert (H46 : byte_val "."%char = 46) by reflexivity.
  unfold is_dot, cfg_name. cbn [d_name].
  change "."%string with (String "."%char EmptyString).
  change ".."%string with (String "."%char (String "."%char EmptyString)).
  rewrite !strcmp_first by (rewrite byte_val_digit, H46; lia).
  rewrite byte_val_digit, H46.
  destruct (Z.eqb_spec (48 + (i / 1000) mod 10 - 46) 0); [lia | reflexivity].
Qed.

Lemma dir_names_cfg (l : list nat) :
  dir_names (map (fun i => mkDirent (cfg_name (Z.of_nat i)) DT_REG) l)
  = map (fun i => cfg_name (Z.of_nat i)) l.
Proof.
  induction l as [|i l IH]; [reflexivity|].
  cbn [map]. rewrite dir_names_cons, is_dot_cfg. cbn [d_type d_name].
  rewrite Z.eqb_refl, IH. reflexivity.
Qed.

(** The directories [cfg_dir n] are well formed and hold [n] entries. *)
Lemma cfg_dir_ok (n : Z) :
  0 <= n <= INT_MAX -> dir_ok (cfg_dir n) /\ entry_count (cfg_dir n) = n.
Proof.
  intros Hn. unfold dir_ok, entry_count, cfg_dir.
  rewrite dir_names_cfg, length_map, length_seq, Z2Nat.id by lia.
  split; [split; [|lia] | reflexivity].
  apply Forall_forall. intros s Hs. apply in_map_iff in Hs.
  destruct Hs as [i [<- _]]. unfold name_ok, strlen, cfg_name. cbn [String.length]. lia.
Qed.

(** The scenario of 25 entries: two pages forward, the third key does
    nothing. *)
Example three_pages_of_25 :
  fst (emu_select_list (Some (cfg_dir 25)) [KEY_RIGHT]) = Browsing (mkNav 10 10 0) /\
  fst (emu_select_list (Some (cfg_dir 25)) [KEY_RIGHT; KEY_RIGHT])
  = Browsing (mkNav 20 20 1) /\
  fst (emu_select_list (Some (cfg_dir 25)) [KEY_RIGHT; KEY_RIGHT; KEY_RIGHT])
  = Browsing (mkNav 20 20 1).
Proof.
  split; [vm_compute; reflexivity|].
  split; vm_compute; reflexivity.
Qed.

(* ------------------------------------------------------------------ *)
(** ** Properties of the menu *)

(** C1, as the code has it: in every state a session waits in, the
    cursor is an index of the entry collection, [0 <= run_idx < N], and
    the page start is a multiple of 10 with [0 <= xs < N]; so no
    sequence of KEY_DOWN raises the cursor above [N - 1] and no
    sequence of KEY_UP lowers it below 0. *)
Theorem cursor_in_collection (dirents : list dirent) (keys : list Z) (s : nav) :
  dir_ok dirents ->
  fst (emu_select_list (Some dirents) keys) = Browsing s ->
  0 <= run_idx s <= entry_count dirents - 1 /\
  0 <= xs s < entry_count dirents /\
  xs s mod 10 = 0.
Proof.
  intros Hd H.
  destruct (session_wait_inv _ _ _ Hd H) as (_ & _ & Hinv & _).
  destruct Hinv as (Hxs & Hmod & Hpage & Hrun & _). lia.
Qed.

Lemma cursor_in_collection_witness :
  dir_ok (cfg_dir 25) /\
  fst (emu_select_list (Some (cfg_dir 25)) [KEY_RIGHT; KEY_UP])
  = Browsing (mkNav 10 9 0) /\
  0 <= 9 <= entry_count (cfg_dir 25) - 1 /\
  0 <= 10 < entry_count (cfg_dir 25) /\
  10 mod 10 = 0.
Proof.
  assert (Hd : dir_ok (cfg_dir 25)) by (apply dir_okb_ok; vm_compute; reflexivity).
  assert (Hr : fst (emu_select_list (Some (cfg_dir 25)) [KEY_RIGHT; KEY_UP])
               = Browsing (mkNav 10 9 0)) by (vm_compute; reflexivity).
  split; [exact Hd|]. split; [exact Hr|].
  exact (cursor_in_collection (cfg_dir 25) [KEY_RIGHT; KEY_UP] (mkNav 10 9 0) Hd Hr).
Defined.

(** C1 as stated fails: with 25 entries, KEY_RIGHT then KEY_UP leaves
    the cursor at 9 on the page that starts at 10, and ten KEY_DOWN from
    the start leave it at 10 on the page that starts at 0. *)
Lemma cursor_leaves_page :
  (fst (emu_select_list (Some (cfg_dir 25)) [KEY_RIGHT; KEY_UP])
   = Browsing (mkNav 10 9 0) /\
   ~ (xs (mkNav 10 9 0) <= run_idx (mkNav 10 9 0) < xs (mkNav 10 9 0) + 10)) /\
  (fst (emu_select_list (Some (cfg_dir 25)) (repeat KEY_DOWN 10))
   = Browsing (mkNav 0 10 0) /\
   ~ (run_idx (mkNav 0 10 0)
      <= Z.min (xs (mkNav 0 10 0) + 9) (entry_count (cfg_dir 25) - 1))).
Proof.
  split; split.
  - vm_compute; reflexivity.
  - cbn [xs run_idx]. lia.
  - vm_compute; reflexivity.
  - vm_compute. intros H. apply H. reflexivity.
Qed.

(** C2, as the code has it: a collection of 10000 entries or more does
    enter the loop and has its first page drawn; the session fails with
    IndexOutOfRange when a page is drawn that reaches the entry at
    position 9999, as after 999 KEY_RIGHT, whatever is typed after
    them; every such failure ends the trace with [endwin] and the
    message on stderr; a collection of at most 9999 entries never fails
    this way. *)
Theorem index_limit (dirents : list dirent) :
  dir_ok dirents ->
  (entry_count dirents <= 9999 ->
   forall keys, fst (emu_select_list (Some dirents) keys) <> IndexOutOfRange) /\
  (10000 <= entry_count dirents ->
   fst (emu_select_list (Some dirents) []) = Browsing nav0 /\
   forall rest,
     fst (emu_select_list (Some dirents) (repeat KEY_RIGHT 999 ++ rest))
     = IndexOutOfRange) /\
  (forall keys,
      fst (emu_select_list (Some dirents) keys) = IndexOutOfRange ->
      exists before,
        snd (emu_select_list (Some dirents) keys)
        = before ++ [EEndwin; EStderr msg_out_of_range]).
Proof.
  intros Hd. split; [|split].
  - intros Hsmall keys H.
    destruct (entry_count_cases dirents) as [E|Hn].
    + rewrite (emu_select_list_empty _ _ E) in H. discriminate.
    + rewrite (emu_select_list_fst _ _ Hd Hn) in H.
      pose proof (session_outcome_ok dirents keys Hd Hn) as Ho.
      rewrite H in Ho. cbn [outcome_ok] in Ho. lia.
  - intros Hbig. assert (Hn : 1 <= entry_count dirents) by lia.
    pose proof (sorted_array_ok _ Hd Hn) as Harr.
    split.
    + apply session_first_page; [exact Hd | lia].
    + intros rest. rewrite (emu_select_list_fst _ _ Hd Hn), session_eq.
      apply (next_page_limit _ _ _ Harr rest 999 Hbig nav0 (nav0_inv _ Hn));
        reflexivity.
  - intros keys H.
    destruct (entry_count_cases dirents) as [E|Hn].
    + rewrite (emu_select_list_empty _ _ E) in H. discriminate.
    + rewrite (emu_select_list_fst _ _ Hd Hn) in H.
      rewrite (emu_select_list_snd _ _ Hd Hn).
      rewrite session_eq in H |- *.
      destruct (out_of_range_message _ _ _ keys nav0 H) as [before Hb].
      rewrite Hb.
      exists (EInitscr (column_sz (emu_content_len dirents))
                       (row_sz (emu_content_len dirents)) :: before).
      reflexivity.
Qed.

Lemma index_limit_witness :
  dir_ok (cfg_dir 10000) /\
  fst (emu_select_list (Some (cfg_dir 10000)) []) = Browsing nav0 /\
  fst (emu_select_list (Some (cfg_dir 10000)) (repeat KEY_RIGHT 999 ++ [KEY_NEWLINE]))
  = IndexOutOfRange.
Proof.
  assert (Hr : 0 <= 10000 <= INT_MAX) by (unfold INT_MAX; lia).
  destruct (cfg_dir_ok 10000 Hr) as [Hd Hc].
  assert (Hn : 10000 <= entry_count (cfg_dir 10000)) by (rewrite Hc; lia).
  split; [exact Hd|].
  destruct (index_limit (cfg_dir 10000) Hd) as (_ & Hbig & _).
  destruct (Hbig Hn) as [H0 H999].
  split; [exact H0 | exact (H999 [KEY_NEWLINE])].
Defined.

(** C2 as stated fails: a collection of 10000 entries (an entry at
    position 9999 exists) does not fail ahead of the loop; its first
    page is drawn and the session waits for a key. *)
Lemma big_collection_enters_loop :
  entry_count (cfg_dir 10000) = 10000 /\
  fst (emu_select_list (Some (cfg_dir 10000)) []) = Browsing (mkNav 0 0 0) /\
  fst (emu_select_list (Some (cfg_dir 10000)) []) <> IndexOutOfRange.
Proof.
  assert (Hr : 0 <= 10000 <= INT_MAX) by (unfold INT_MAX; lia).
  destruct (cfg_dir_ok 10000 Hr) as [Hd Hc].
  assert (H : fst (emu_select_list (Some (cfg_dir 10000)) []) = Browsing nav0)
    by (apply session_first_page; [exact Hd | rewrite Hc; lia]).
  split; [exact Hc|]. split; [exact H|].
  rewrite H. discriminate.
Qed.

(** C3: KEY_RIGHT does nothing when [end_page] is set; otherwise the
    page start becomes [xs + 10] and the cursor the new page start. *)
Theorem next_page (pre_idx : Z) (s : nav) :
  wait_inv pre_idx s ->
  (end_page s <> 0 -> on_key pre_idx KEY_RIGHT s = KeyContinue s) /\
  (end_page s = 0 ->
   exists s', on_key pre_idx KEY_RIGHT s = KeyContinue s' /\
              xs s' = xs s + 10 /\ xs s < xs s' /\ run_idx s' = xs s' /\
              end_page s' = end_page s).
Proof.
  intros [(Hxs & _) _]. unfold on_key.
  change (KEY_RIGHT =? KEY_UP) with false.
  change (KEY_RIGHT =? KEY_DOWN) with false.
  change (KEY_RIGHT =? KEY_RIGHT) with true. cbv iota.
  split; intros H.
  - destruct (Z.eqb_spec (end_page s) 0); [contradiction | reflexivity].
  - rewrite H. cbn [Z.eqb].
    rewrite int_wrap_id by (unfold INT_MIN, INT_MAX; lia).
    eexists. split; [reflexivity|]. cbn [xs run_idx end_page]. lia.
Qed.

Lemma next_page_witness :
  wait_inv 25 (mkNav 0 3 0) /\
  exists s', on_key 25 KEY_RIGHT (mkNav 0 3 0) = KeyContinue s' /\
             xs s' = 0 + 10 /\ 0 < xs s' /\ run_idx s' = xs s' /\ end_page s' = 0.
Proof.
  assert (W : wait_inv 25 (mkNav 0 3 0)).
  { unfold wait_inv, loop_inv; simpl. repeat split; auto; lia. }
  split; [exact W|].
  exact (proj2 (next_page 25 (mkNav 0 3 0) W) eq_refl).
Defined.

(** C4: KEY_LEFT does nothing on the first page; otherwise the page
    start becomes [xs - 10], the cursor the new page start, and
    [end_page] is cleared. *)
Theorem prev_page (pre_idx : Z) (s : nav) :
  wait_inv pre_idx s ->
  (xs s = 0 -> on_key pre_idx KEY_LEFT s = KeyContinue s) /\
  (xs s <> 0 ->
   exists s', on_key pre_idx KEY_LEFT s = KeyContinue s' /\
              xs s' = xs s - 10 /\ xs s' < xs s /\ run_idx s' = xs s' /\
              end_page s' = 0).
Proof.
  intros [(Hxs & _) _]. unfold on_key.
  change (KEY_LEFT =? KEY_UP) with false.
  change (KEY_LEFT =? KEY_DOWN) with false.
  change (KEY_LEFT =? KEY_RIGHT) with false.
  change (KEY_LEFT =? KEY_LEFT) with true. cbv iota.
  split; intros H.
  - rewrite H. reflexivity.
  - destruct (Z.gtb_spec (xs s) 0); [|lia].
    rewrite int_wrap_id by (unfold INT_MIN, INT_MAX; lia).
    eexists. split; [reflexivity|]. cbn [xs run_idx end_page]. lia.
Qed.

Lemma prev_page_witness :
  wait_inv 25 (mkNav 20 22 1) /\
  exists s', on_key 25 KEY_LEFT (mkNav 20 22 1) = KeyContinue s' /\
             xs s' = 20 - 10 /\ xs s' < 20 /\ run_idx s' = xs s' /\ end_page s' = 0.
Proof.
  assert (W : wait_inv 25 (mkNav 20 22 1)).
  { unfold wait_inv, loop_inv; simpl. repeat split; auto; lia. }
  split; [exact W|].
  assert (N : xs (mkNav 20 22 1) <> 0) by (simpl; lia).
  exact (proj2 (prev_page 25 (mkNav 20 22 1) W) N).
Defined.

(** C5: KEY_UP sets the cursor to [max (run_idx - 1) 0], KEY_DOWN to
    [min (run_idx + 1) (N - 1)]; neither changes the page start (nor
    [end_page]). *)
Theorem row_moves (pre_idx : Z) (s : nav) :
  pre_idx <= INT_MAX ->
  wait_inv pre_idx s ->
  on_key pre_idx KEY_UP s
  = KeyContinue (mkNav (xs s) (Z.max (run_idx s - 1) 0) (end_page s)) /\
  on_key pre_idx KEY_DOWN s
  = KeyContinue (mkNav (xs s) (Z.min (run_idx s + 1) (pre_idx - 1)) (end_page s)).
Proof.
  intros Hmax [(_ & _ & _ & Hrun & _) _]. unfold on_key.
  change (KEY_UP =? KEY_UP) with true.
  change (KEY_DOWN =? KEY_UP) with false.
  change (KEY_DOWN =? KEY_DOWN) with true. cbv iota.
  unfold INT_MAX in Hmax.
  rewrite !int_wrap_id by (unfold INT_MIN, INT_MAX; lia).
  split; do 2 f_equal.
  - destruct (Z.ltb_spec (run_idx s - 1) 0); lia.
  - destruct (Z.geb_spec (run_idx s + 1) pre_idx); lia.
Qed.

Lemma row_moves_witness :
  25 <= INT_MAX /\ wait_inv 25 (mkNav 20 24 1) /\
  on_key 25 KEY_UP (mkNav 20 24 1) = KeyContinue (mkNav 20 (Z.max (24 - 1) 0) 1) /\
  on_key 25 KEY_DOWN (mkNav 20 24 1) = KeyContinue (mkNav 20 (Z.min (24 + 1) (25 - 1)) 1).
Proof.
  assert (M : 25 <= INT_MAX) by (unfold INT_MAX; lia).
  assert (W : wait_inv 25 (mkNav 20 24 1)).
  { unfold wait_inv, loop_inv; simpl. repeat split; auto; lia. }
  split; [exact M|]. split; [exact W|].
  exact (row_moves 25 (mkNav 20 24 1) M W).
Defined.

(** C6: in every state a session waits in, the line feed ends the
    session with [Chosen] of the entry under the cursor; in the scenario
    of ["a.cfg"], ["z.cfg"], ["m.cfg"] the entries are listed as
    ["a.cfg"], ["m.cfg"], ["z.cfg"], and KEY_DOWN then the line feed
    chooses ["m.cfg"]. *)
Theorem confirm_chooses_cursor (dirents : list dirent) (keys rest : list Z) (s : nav) :
  dir_ok dirents ->
  fst (emu_select_list (Some dirents) keys) = Browsing s ->
  (0 <= run_idx s < entry_count dirents /\
   fst (emu_select_list (Some dirents) (keys ++ KEY_NEWLINE :: rest))
   = Chosen (nth (Z.to_nat (run_idx s)) (list_entries dirents) EmptyString)) /\
  (list_entries scenario_dir = ["a.cfg"; "m.cfg"; "z.cfg"]%string /\
   fst (emu_select_list (Some scenario_dir) [KEY_DOWN]) = Browsing (mkNav 0 1 1) /\
   fst (emu_select_list (Some scenario_dir) [KEY_DOWN; KEY_NEWLINE])
   = Chosen "m.cfg").
Proof.
  intros Hd H. split.
  - destruct (session_wait_inv _ _ _ Hd H) as (Hn & Hs & Hw).
    pose proof (sorted_array_ok _ Hd Hn) as Harr.
    pose proof Hw as [(_ & _ & _ & Hrun & _) _].
    split; [exact Hrun|].
    rewrite (emu_select_list_fst _ _ Hd Hn), session_eq.
    rewrite session_eq in Hs.
    rewrite (select_loop_resume _ _ _ keys (KEY_NEWLINE :: rest) nav0 s Hs).
    destruct (wait_render (emu_content_len dirents) _ _ s Harr Hw) as [E Es].
    rewrite (select_loop_keys _ _ _ _ _ E). rewrite Es.
    cbn [key_phase].
    change (on_key (entry_count dirents) KEY_NEWLINE s) with (KeyContinue s).
    change (KEY_NEWLINE =? 10) with true. cbv iota.
    unfold sorted_array. rewrite arr_get_entry; [reflexivity|].
    rewrite list_entries_length. exact Hrun.
  - split; [vm_compute; reflexivity|].
    split; vm_compute; reflexivity.
Qed.

Lemma confirm_chooses_cursor_witness :
  dir_ok scenario_dir /\
  fst (emu_select_list (Some scenario_dir) [KEY_DOWN]) = Browsing (mkNav 0 1 1) /\
  fst (emu_select_list (Some scenario_dir) ([KEY_DOWN] ++ [KEY_NEWLINE]))
  = Chosen (nth (Z.to_nat 1) (list_entries scenario_dir) EmptyString).
Proof.
  assert (Hd : dir_ok scenario_dir) by (apply dir_okb_ok; vm_compute; reflexivity).
  assert (Hr : fst (emu_select_list (Some scenario_dir) [KEY_DOWN])
               = Browsing (mkNav 0 1 1)) by (vm_compute; reflexivity).
  split; [exact Hd|]. split; [exact Hr|].
  exact (proj2 (proj1
    (confirm_chooses_cursor scenario_dir [KEY_DOWN] [] (mkNav 0 1 1) Hd Hr))).
Defined.

(** C7: in every state a session waits in (a page was just drawn),
    [end_page] is set exactly when no entry exists at index [xs + 10],
    which is exactly when [N <= xs + 10]. *)
Theorem end_page_iff_last (dirents : list dirent) (keys : list Z) (s : nav) :
  dir_ok dirents ->
  fst (emu_select_list (Some dirents) keys) = Browsing s ->
  1 <= entry_count dirents /\
  (end_page s = 0 \/ end_page s = 1) /\
  (end_page s <> 0 <->
   nth_error (list_entries dirents) (Z.to_nat (xs s + 10)) = None) /\
  (end_page s <> 0 <-> entry_count dirents <= xs s + 10) /\
  end_page s = (if entry_count dirents <=? xs s + 10 then 1 else 0).
Proof.
  intros Hd H.
  destruct (session_wait_inv _ _ _ Hd H) as (Hn & _ & Hw).
  destruct Hw as [(Hxs & _ & _ & _ & Hflag & Hlast) [Hset _]].
  pose proof (list_entries_length dirents) as L.
  split; [exact Hn|]. split; [exact Hflag|].
  assert (Hiff : end_page s <> 0 <-> entry_count dirents <= xs s + 10)
    by (split; intros; lia).
  split; [|split; [exact Hiff|]].
  - rewrite nth_error_None, Hiff. lia.
  - destruct (Z.leb_spec (entry_count dirents) (xs s + 10)); lia.
Qed.

Lemma end_page_iff_last_witness :
  dir_ok (cfg_dir 25) /\
  fst (emu_select_list (Some (cfg_dir 25)) [KEY_RIGHT; KEY_RIGHT])
  = Browsing (mkNav 20 20 1) /\
  (end_page (mkNav 20 20 1) <> 0 <-> entry_count (cfg_dir 25) <= xs (mkNav 20 20 1) + 10).
Proof.
  assert (Hd : dir_ok (cfg_dir 25)) by (apply dir_okb_ok; vm_compute; reflexivity).
  assert (Hr : fst (emu_select_list (Some (cfg_dir 25)) [KEY_RIGHT; KEY_RIGHT])
               = Browsing (mkNav 20 20 1)) by (vm_compute; reflexivity).
  split; [exact Hd|]. split; [exact Hr|].
  exact (proj1 (proj2 (proj2 (proj2
    (end_page_iff_last (cfg_dir 25) [KEY_RIGHT; KEY_RIGHT] (mkNav 20 20 1) Hd Hr))))).
Defined.

Lemma dir_names_perm (d1 d2 : list dirent) :
  Permutation d1 d2 -> Permutation (dir_names d1) (dir_names d2).
Proof.
  induction 1 as [|x l l' _ IH|x y l|l l' l'' _ IH1 _ IH2].
  - apply Permutation_refl.
  - rewrite !dir_names_cons.
    destruct (is_dot x); [exact IH|].
    destruct (d_type x =? DT_REG); [apply perm_skip|]; exact IH.
  - rewrite !dir_names_cons.
    destruct (is_dot x), (is_dot y), (d_type x =? DT_REG), (d_type y =? DT_REG);
      try apply Permutation_refl; apply perm_swap.
  - eapply perm_trans; eassumption.
Qed.

Lemma StronglySorted_impl_in {A : Type} (R R' : A -> A -> Prop) (l : list A) :
  (forall x y, In x l -> In y l -> R x y -> R' x y) ->
  StronglySorted R l -> StronglySorted R' l.
Proof.
  intros Himp Hs. induction Hs as [|x t Hs IH Hall]; constructor.
  - apply IH. intros a b Ha Hb. apply Himp; right; assumption.
  - rewrite Forall_forall in *. intros y Hy.
    apply Himp; [left; reflexivity | right; exact Hy | apply Hall, Hy].
Qed.

(** C8: the names listed are the names read, sorted in ascending
    byte-wise lexicographic order, and they come out the same whatever
    order [readdir] returned the directory entries in; they are the
    names the array holds when the loop starts. *)
Theorem list_entries_sorted (d1 d2 : list dirent) :
  Forall no_nul (dir_names d1) ->
  Permutation d1 d2 ->
  list_entries d1 = list_entries d2 /\
  StronglySorted (fun a b => lex_le (bytes_of a) (bytes_of b)) (list_entries d1) /\
  Permutation (dir_names d1) (list_entries d1) /\
  (dir_ok d1 ->
   build_array d1
   = Some (map Some (list_entries d1) ++ repeat None (spare d1), entry_count d1)).
Proof.
  intros Hnul Hp.
  pose proof (qsort_perm qsort_compare (dir_names d1)) as Hperm.
  split; [|split; [|split; [exact Hperm | apply build_array_spec]]];
    unfold list_entries.
  - apply (qsort_perm_invariant qsort_compare strcmp_swap strcmp_trans).
    + rewrite Forall_forall in Hnul. intros x y Hx Hy.
      apply strcmp_eq; auto.
    + apply dir_names_perm, Hp.
  - pose proof (Permutation_Forall Hperm Hnul) as Hnul'.
    rewrite Forall_forall in Hnul'.
    apply (StronglySorted_impl_in (cmp_le qsort_compare)).
    + intros x y Hx Hy Hle. apply strcmp_lex; auto.
    + apply (qsort_sorted qsort_compare strcmp_swap strcmp_trans).
Qed.

Lemma list_entries_sorted_witness :
  Forall no_nul (dir_names scenario_dir) /\
  Permutation scenario_dir (rev scenario_dir) /\
  list_entries scenario_dir = list_entries (rev scenario_dir).
Proof.
  assert (Hn : Forall no_nul (dir_names scenario_dir))
    by (apply no_nulb_ok; vm_compute; reflexivity).
  assert (Hp : Permutation scenario_dir (rev scenario_dir))
    by apply Permutation_rev.
  split; [exact Hn|]. split; [exact Hp|].
  exact (proj1 (list_entries_sorted scenario_dir (rev scenario_dir) Hn Hp)).
Defined.

(** C9: when the directory holds no file to list, the session ends with
    [EmptySelection] and the trace is the one message on stderr: the
    screen is not started and no page is drawn, whatever keys wait; the
    listing itself is the empty sequence. *)
Theorem empty_selection (dirents : list dirent) (keys : list Z) :
  dir_names dirents = [] ->
  emu_select_list (Some dirents) keys = (EmptySelection, [EStderr msg_no_configs]) /\
  list_entries dirents = [] /\
  build_array dirents = Some (calloc 1, 0).
Proof.
  intros H. split; [apply emu_select_list_empty, H|].
  split; [unfold list_entries; rewrite H; reflexivity|].
  rewrite (build_array_spec _ (dir_ok_empty _ H)).
  unfold list_entries, spare, slots, entry_count. rewrite H. reflexivity.
Qed.

Lemma empty_selection_witness :
  dir_names [mkDirent "." DT_DIR; mkDirent ".." DT_DIR; mkDirent "old" DT_DIR] = [] /\
  emu_select_list (Some [mkDirent "." DT_DIR; mkDirent ".." DT_DIR; mkDirent "old" DT_DIR])
                  [KEY_DOWN; KEY_NEWLINE]
  = (EmptySelection, [EStderr msg_no_configs]).
Proof.
  assert (H : dir_names [mkDirent "." DT_DIR; mkDirent ".." DT_DIR;
                         mkDirent "old" DT_DIR] = []) by reflexivity.
  split; [exact H|].
  exact (proj1 (empty_selection _ [KEY_DOWN; KEY_NEWLINE] H)).
Defined.

(** C10: the array has [slots] = (sum of the name lengths) + 1 slots,
    at least [N + 1]; no session reads or writes outside of it; and in
    every state a session waits in, each index the render loop read lies
    between [xs] and [min (xs + 10) N], inside the allocation, and holds
    a name when below [N] and the NULL slot when it is [N]. *)
Theorem null_probe_in_bounds (dirents : list dirent) (keys : list Z) :
  dir_ok dirents ->
  size_wrap (name_sz (emu_content_len dirents) + 1) = slots dirents /\
  entry_count dirents + 1 <= slots dirents /\
  build_array dirents = Some (sorted_array dirents, entry_count dirents) /\
  Z.of_nat (List.length (sorted_array dirents)) = slots dirents /\
  fst (emu_select_list (Some dirents) keys) <> MemoryFault /\
  forall s,
    fst (emu_select_list (Some dirents) keys) = Browsing s ->
    Forall (fun i =>
              xs s <= i <= Z.min (xs s + 10) (entry_count dirents) /\
              i < slots dirents /\
              arr_get (sorted_array dirents) i
              = Some (if i <? entry_count dirents
                      then Some (nth (Z.to_nat i) (list_entries dirents) EmptyString)
                      else None))
           (r_probes (render (emu_content_len dirents) (sorted_array dirents) s)).
Proof.
  intros Hd. pose proof (slots_bound _ Hd) as Hb.
  pose proof (list_entries_length dirents) as L.
  split; [apply content_len_slots, Hd|].
  split; [lia|].
  split; [apply build_array_spec, Hd|].
  split; [apply sorted_array_length, Hd|].
  split.
  - intros H. destruct (entry_count_cases dirents) as [E|Hn].
    + rewrite (emu_select_list_empty _ _ E) in H. discriminate.
    + rewrite (emu_select_list_fst _ _ Hd Hn) in H.
      pose proof (session_outcome_ok dirents keys Hd Hn) as Ho.
      rewrite H in Ho. exact Ho.
  - intros s H.
    destruct (session_wait_inv _ _ _ Hd H) as (Hn & _ & [Hinv _]).
    pose proof (sorted_array_ok _ Hd Hn) as Harr.
    destruct (render_spec (emu_content_len dirents) _ _ s Harr Hinv) as [_ Hp].
    eapply Forall_impl; [|exact Hp]. cbv beta. intros i Hi.
    destruct Hinv as (Hxs & _).
    pose proof (spare_pos _ Hd) as Hsp.
    split; [exact Hi|]. split; [lia|].
    unfold sorted_array.
    destruct (Z.ltb_spec i (entry_count dirents)) as [Hlt|Hge].
    + apply arr_get_entry. lia.
    + apply arr_get_null. lia.
Qed.

Lemma null_probe_in_bounds_witness :
  dir_ok scenario_dir /\
  entry_count scenario_dir + 1 <= slots scenario_dir /\
  fst (emu_select_list (Some scenario_dir) [KEY_DOWN; KEY_RIGHT]) <> MemoryFault.
Proof.
  assert (Hd : dir_ok scenario_dir) by (apply dir_okb_ok; vm_compute; reflexivity).
  split; [exact Hd|].
  pose proof (null_probe_in_bounds scenario_dir [KEY_DOWN; KEY_RIGHT] Hd)
    as (_ & H1 & _ & _ & H2 & _).
  split; [exact H1 | exact H2].
Defined.

(* ------------------------------------------------------------------ *)
(** ** Paths *)

Lemma strlen_app (a b : string) : strlen (a ++ b) = strlen a + strlen b.
Proof.
  unfold strlen. induction a as [|c a IH]; simpl String.length; [lia|].
  rewrite !Nat2Z.inj_succ. lia.
Qed.

Lemma substring_all (s : string) (n : nat) :
  (String.length s <= n)%nat -> substring 0 n s = s.
Proof.
  revert n. induction s as [|c s IH]; intros [|n] H; simpl in *;
    try reflexivity; try lia.
  rewrite IH by lia. reflexivity.
Qed.

Lemma substring_app (a b : string) : substring 0 (String.length a) (a ++ b) = a.
Proof.
  induction a as [|c a IH]; simpl.
  - destruct b; reflexivity.
  - rewrite IH. reflexivity.
Qed.

Lemma app_assoc_string (a b c : string) : ((a ++ b) ++ c = a ++ (b ++ c))%string.
Proof. induction a as [|x a IH]; simpl; [reflexivity|]. rewrite IH. reflexivity. Qed.

(** A buffer with room for the text and its terminator holds the text. *)
Lemma snprintf_fits (sz : Z) (s : string) : strlen s < sz -> snprintf sz s = s.
Proof.
  intros H. unfold snprintf, strlen in *.
  destruct (Z.leb_spec sz 0); [lia|]. apply substring_all. lia.
Qed.

(** A buffer one byte short loses the last byte. *)
Lemma snprintf_cut (a b : string) : snprintf (strlen a + 1) (a ++ b) = a.
Proof.
  unfold snprintf, strlen.
  destruct (Z.leb_spec (Z.of_nat (String.length a) + 1) 0); [lia|].
  replace (Z.to_nat (Z.of_nat (String.length a) + 1 - 1)) with (String.length a) by lia.
  apply substring_app.
Qed.

Lemma strchr_app_slash (a b : string) : strchr (a ++ String SLASH b) SLASH = true.
Proof.
  induction a as [|c a IH].
  - reflexivity.
  - change (String c a ++ String SLASH b)%string with (String c (a ++ String SLASH b)).
    cbn [strchr].
    destruct (byte_val c =? byte_val SLASH); [reflexivity | exact IH].
Qed.

Lemma emu_basename_no_slash (s : string) : strchr s SLASH = false -> emu_basename s = s.
Proof.
  intros H. destruct s as [|c s]; [reflexivity|].
  cbn [emu_basename]. rewrite H. reflexivity.
Qed.

Lemma emu_basename_join (dir name : string) :
  strchr name SLASH = false ->
  emu_basename (dir ++ String SLASH name) = name.
Proof.
  intros H. induction dir as [|c dir IH].
  - change (emu_basename (String SLASH name) = name). cbn [emu_basename].
    assert (Hs : strchr (String SLASH name) SLASH = true) by reflexivity.
    rewrite Hs. apply emu_basename_no_slash, H.
  - change (String c dir ++ String SLASH name)%string
      with (String c (dir ++ String SLASH name)).
    cbn [emu_basename].
    pose proof (strchr_app_slash (String c dir) name) as Hs.
    change (String c dir ++ String SLASH name)%string
      with (String c (dir ++ String SLASH name)) in Hs.
    rewrite Hs. exact IH.
Qed.

(** X1: [emu_basename] returns the part of the path behind its last
    ['/']: the result holds no ['/'], and the path is the result behind
    a prefix that is empty or ends in ['/']. *)
Theorem emu_basename_last_component (path : string) :
  strchr (emu_basename path) SLASH = false /\
  exists pre : string,
    path = (pre ++ emu_basename path)%string /\
    (pre = EmptyString \/ exists q : string, pre = (q ++ String SLASH EmptyString)%string).
Proof.
  induction path as [|c t IH].
  - split; [reflexivity|]. exists EmptyString. split; [reflexivity | left; reflexivity].
  - cbn [emu_basename].
    destruct (strchr (String c t) SLASH) eqn:E.
    + destruct IH as [Hno [pre [Hpre Hend]]]. split; [exact Hno|].
      exists (String c pre). split; [simpl; rewrite <- Hpre; reflexivity|].
      right. destruct Hend as [-> | [q ->]].
      * exists EmptyString. simpl in Hpre. rewrite <- Hpre in Hno.
        cbn [strchr] in E. rewrite Hno in E.
        destruct (Z.eqb_spec (byte_val c) (byte_val SLASH)) as [Ec|]; [|discriminate].
        apply byte_val_inj in Ec. subst c. reflexivity.
      * exists (String c q). reflexivity.
    + split; [exact E|]. exists EmptyString. split; [reflexivity | left; reflexivity].
Qed.

(** X2: for a name that holds no ['/'], the base name of
    [dir ++ "/" ++ name] is the name, whatever the directory. *)
Theorem emu_basename_of_join (dir name : string) :
  strchr name SLASH = false ->
  emu_basename (dir ++ "/" ++ name) = name.
Proof.
  intros H. change (dir ++ "/" ++ name)%string with (dir ++ String SLASH name)%string.
  induction dir as [|c dir IH].
  - change (emu_basename (String SLASH name) = name). cbn [emu_basename].
    assert (Hs : strchr (String SLASH name) SLASH = true) by reflexivity.
    rewrite Hs. destruct name as [|d name]; [reflexivity|].
    cbn [emu_basename]. rewrite H. reflexivity.
  - change (String c dir ++ String SLASH name)%string
      with (String c (dir ++ String SLASH name)).
    cbn [emu_basename].
    assert (Hs : strchr (String c (dir ++ String SLASH name)) SLASH = true).
    { cbn [strchr]. destruct (byte_val c =? byte_val SLASH); [reflexivity|].
      apply strchr_app_slash. }
    rewrite Hs. exact IH.
Qed.

Lemma emu_basename_of_join_witness :
  strchr "win98.cfg" SLASH = false /\
  emu_basename ("/home/u/.emubox" ++ "/" ++ "win98.cfg") = "win98.cfg"%string.
Proof.
  assert (H : strchr "win98.cfg" SLASH = false) by reflexivity.
  split; [exact H|].
  exact (emu_basename_of_join "/home/u/.emubox" "win98.cfg" H).
Defined.

(* ------------------------------------------------------------------ *)
(** ** The window size *)

Lemma max_len_bounds (names : list string) :
  Forall name_ok names -> 0 <= max_len names <= 255.
Proof.
  induction 1 as [|s t Hs _ IH]; simpl; [lia|]. unfold name_ok in Hs. lia.
Qed.

Lemma content_len_fold (dirents : list dirent) :
  forall cl,
    0 <= column_sz cl <= 10 -> 0 <= row_sz cl ->
    column_sz (fold_left content_len_step dirents cl)
    = Z.min (column_sz cl + entry_count dirents) 10 /\
    row_sz (fold_left content_len_step dirents cl)
    = Z.max (row_sz cl) (max_len (dir_names dirents)).
Proof.
  unfold entry_count.
  induction dirents as [|den rest IH]; intros cl Hc Hr; simpl fold_left.
  - unfold dir_names; simpl. lia.
  - rewrite dir_names_cons. unfold content_len_step at 2 4.
    destruct (is_dot den); [apply IH; assumption|].
    destruct (d_type den =? DT_REG); [|apply IH; assumption].
    pose proof (strlen_nonneg (d_name den)) as Hl.
    assert (Hcol : (if column_sz cl <? 10 then size_wrap (column_sz cl + 1)
                    else column_sz cl) = Z.min (column_sz cl + 1) 10).
    { destruct (Z.ltb_spec (column_sz cl) 10);
        [rewrite size_wrap_id by (unfold SIZE_MAX; lia)|]; lia. }
    assert (Hrow : (if strlen (d_name den) >? row_sz cl then strlen (d_name den)
                    else row_sz cl) = Z.max (row_sz cl) (strlen (d_name den))).
    { destruct (Z.gtb_spec (strlen (d_name den)) (row_sz cl)); lia. }
    rewrite Hcol, Hrow.
    match goal with
    | |- context [fold_left _ rest ?c] => destruct (IH c) as [H1 H2]
    end; cbn [column_sz row_sz]; try lia.
    rewrite H1, H2. cbn [column_sz row_sz].
    change (max_len (d_name den :: dir_names rest))
      with (Z.max (strlen (d_name den)) (max_len (dir_names rest))).
    cbn [List.length]. rewrite Nat2Z.inj_succ. lia.
Qed.

(** X3: the window [emu_content_len] sizes has [min N 10 + 5] lines and
    (length of the longest name) + 13 columns, and [name_sz] is the
    total length of the names; it is the window the session opens. *)
Theorem window_geometry (dirents : list dirent) (keys : list Z) :
  dir_ok dirents ->
  column_sz (emu_content_len dirents) = Z.min (entry_count dirents) 10 + 5 /\
  row_sz (emu_content_len dirents) = max_len (dir_names dirents) + 13 /\
  name_sz (emu_content_len dirents) = total_len (dir_names dirents) /\
  (1 <= entry_count dirents ->
   exists e,
     snd (emu_select_list (Some dirents) keys)
     = EInitscr (Z.min (entry_count dirents) 10 + 5)
                (max_len (dir_names dirents) + 13) :: e).
Proof.
  intros Hd. pose proof Hd as [Hn Hc].
  pose proof (max_len_bounds _ Hn) as Hm.
  pose proof (slots_bound _ Hd) as Hb.
  destruct (content_len_fold dirents (mkClinfo 0 0 0)) as [H1 H2];
    [simpl; lia | simpl; lia |].
  simpl column_sz in H1. simpl row_sz in H2.
  assert (G1 : column_sz (emu_content_len dirents) = Z.min (entry_count dirents) 10 + 5).
  { unfold emu_content_len. cbn [column_sz]. rewrite H1.
    unfold entry_count. rewrite size_wrap_id by (unfold SIZE_MAX; lia). lia. }
  assert (G2 : row_sz (emu_content_len dirents) = max_len (dir_names dirents) + 13).
  { unfold emu_content_len. cbn [row_sz]. rewrite H2.
    rewrite size_wrap_id by (unfold SIZE_MAX; lia). lia. }
  split; [exact G1|]. split; [exact G2|]. split.
  - unfold emu_content_len. cbn [name_sz].
    rewrite content_len_name_sz; simpl name_sz; unfold slots in Hb; lia.
  - intros H1n. rewrite (emu_select_list_snd _ _ Hd H1n), G1, G2.
    eexists. reflexivity.
Qed.

Lemma window_geometry_witness :
  dir_ok scenario_dir /\
  column_sz (emu_content_len scenario_dir) = Z.min (entry_count scenario_dir) 10 + 5 /\
  row_sz (emu_content_len scenario_dir) = max_len (dir_names scenario_dir) + 13.
Proof.
  assert (Hd : dir_ok scenario_dir) by (apply dir_okb_ok; vm_compute; reflexivity).
  split; [exact Hd|].
  destruct (window_geometry scenario_dir [] Hd) as (H1 & H2 & _).
  split; [exact H1 | exact H2].
Defined.

(* ------------------------------------------------------------------ *)
(** ** Sessions: keys that do nothing, cancelling, ending *)

Lemma on_key_other (pre_idx ch : Z) (s : nav) :
  ~ bound_key ch -> on_key pre_idx ch s = KeyContinue s /\ ch <> 10.
Proof.
  unfold bound_key, KEY_NEWLINE. intros H. unfold on_key.
  destruct (Z.eqb_spec ch KEY_UP); [tauto|].
  destruct (Z.eqb_spec ch KEY_DOWN); [tauto|].
  destruct (Z.eqb_spec ch KEY_RIGHT); [tauto|].
  destruct (Z.eqb_spec ch KEY_LEFT); [tauto|].
  destruct (Z.eqb_spec ch KEY_BACKSPACE); [tauto|].
  split; [reflexivity | tauto].
Qed.

(** A session that is over does not read the keys that follow. *)
Lemma select_loop_ended (cl : content_len_info) (arr : array) (pre_idx : Z)
      (keys rest : list Z) :
  forall s,
    ended (fst (select_loop cl arr pre_idx keys s)) ->
    select_loop cl arr pre_idx (keys ++ rest) s = select_loop cl arr pre_idx keys s.
Proof.
  induction keys as [|ch keys IH]; intros s;
    rewrite (select_loop_eq cl arr pre_idx (_ ++ rest) s), (select_loop_eq cl arr pre_idx _ s);
    destruct (r_exit (render cl arr s)); try reflexivity;
    cbn [app key_phase fst]; intros H; try contradiction;
    (destruct (on_key pre_idx ch _) as [s2|]; [|reflexivity];
     destruct (ch =? 10); [reflexivity|];
     rewrite fst_let in H; rewrite (IH s2 H); reflexivity).
Qed.

(** The trace of a session that waits ends with the page it waits on,
    and goes on from there with the keys that follow. *)
Lemma select_loop_trace (cl : content_len_info) (arr : array) (pre_idx : Z)
      (keys : list Z) :
  forall s s',
    fst (select_loop cl arr pre_idx keys s) = Browsing s' ->
    exists before,
      snd (select_loop cl arr pre_idx keys s)
      = before ++ [EFrame (r_draw (render cl arr s'))] /\
      forall rest,
        snd (select_loop cl arr pre_idx (keys ++ rest) s)
        = before ++ snd (select_loop cl arr pre_idx rest s').
Proof.
  induction keys as [|ch keys IH]; intros s s' H;
    pose proof (waiting_state _ _ _ _ _ _ H) as E;
    rewrite (select_loop_keys _ _ _ _ _ E) in H |- *.
  - cbn [key_phase fst snd] in H |- *. injection H as <-.
    exists []. split.
    + rewrite render_after_render. reflexivity.
    + intros rest. cbn [app]. rewrite select_loop_after_render. reflexivity.
  - cbn [key_phase] in H |- *.
    destruct (on_key pre_idx ch (after_render s (r_exit (render cl arr s))))
      as [s2|] eqn:K; [|discriminate].
    destruct (ch =? 10) eqn:E10.
    + destruct (arr_get arr (run_idx s2)) as [[name|]|]; discriminate.
    + rewrite fst_let in H. rewrite snd_let.
      destruct (IH s2 s' H) as [before [Hb Hrest]].
      exists (EFrame (r_draw (render cl arr s)) :: before). split.
      * rewrite Hb. reflexivity.
      * intros rest. cbn [app].
        rewrite (select_loop_keys _ _ _ (ch :: keys ++ rest) _ E).
        cbn [key_phase]. rewrite K, E10, snd_let, Hrest. reflexivity.
Qed.

(** One key from a state the session waits in. *)
Lemma select_loop_one_key (cl : content_len_info) (arr : array) (pre_idx : Z)
      (ch : Z) (rest : list Z) (s : nav) :
  arr_ok arr pre_idx -> wait_inv pre_idx s ->
  select_loop cl arr pre_idx (ch :: rest) s
  = key_phase cl arr pre_idx (r_draw (render cl arr s)) (ch :: rest) s.
Proof.
  intros Harr Hw. destruct (wait_render cl arr pre_idx s Harr Hw) as [E Es].
  rewrite (select_loop_keys _ _ _ _ _ E), Es. reflexivity.
Qed.

Lemma select_loop_no_key (cl : content_len_info) (arr : array) (pre_idx : Z) (s : nav) :
  arr_ok arr pre_idx -> wait_inv pre_idx s ->
  select_loop cl arr pre_idx [] s = (Browsing s, [EFrame (r_draw (render cl arr s))]).
Proof.
  intros Harr Hw. destruct (wait_render cl arr pre_idx s Harr Hw) as [E Es].
  rewrite (select_loop_keys _ _ _ _ _ E), Es. reflexivity.
Qed.

(** X4: a key the loop has no case for changes nothing: the session
    waits in the same state, and the trace only grows by one more
    drawing of the same page. *)
Theorem unbound_key_ignored (dirents : list dirent) (keys : list Z) (ch : Z) (s : nav) :
  dir_ok dirents ->
  fst (emu_select_list (Some dirents) keys) = Browsing s ->
  ~ bound_key ch ->
  fst (emu_select_list (Some dirents) (keys ++ [ch])) = Browsing s /\
  exists before page,
    snd (emu_select_list (Some dirents) keys) = before ++ [EFrame page] /\
    snd (emu_select_list (Some dirents) (keys ++ [ch]))
    = before ++ [EFrame page; EFrame page].
Proof.
  intros Hd H Hch.
  destruct (session_wait_inv _ _ _ Hd H) as (Hn & Hs & Hw).
  pose proof (sorted_array_ok _ Hd Hn) as Harr.
  destruct (on_key_other (entry_count dirents) ch s Hch) as [K Hne].
  rewrite session_eq in Hs.
  assert (Hone : select_loop (emu_content_len dirents) (sorted_array dirents)
                             (entry_count dirents) [ch] s
                 = (Browsing s,
                    [EFrame (r_draw (render (emu_content_len dirents)
                                            (sorted_array dirents) s));
                     EFrame (r_draw (render (emu_content_len dirents)
                                            (sorted_array dirents) s))])).
  { rewrite (select_loop_one_key _ _ _ _ _ _ Harr Hw). cbn [key_phase].
    rewrite K. destruct (Z.eqb_spec ch 10) as [E10|_]; [contradiction|].
    rewrite (select_loop_no_key _ _ _ _ Harr Hw). reflexivity. }
  split.
  - rewrite (emu_select_list_fst _ _ Hd Hn), session_eq.
    rewrite (select_loop_resume _ _ _ keys [ch] nav0 s Hs), Hone. reflexivity.
  - destruct (select_loop_trace _ _ _ keys nav0 s Hs) as [before [Hb Hrest]].
    exists (EInitscr (column_sz (emu_content_len dirents))
                     (row_sz (emu_content_len dirents)) :: before).
    eexists. rewrite !(emu_select_list_snd _ _ Hd Hn), !session_eq.
    rewrite Hb, (Hrest [ch]), Hone. split; reflexivity.
Qed.

Lemma unbound_key_ignored_witness :
  dir_ok scenario_dir /\
  fst (emu_select_list (Some scenario_dir) [KEY_DOWN]) = Browsing (mkNav 0 1 1) /\
  ~ bound_key 113 /\
  fst (emu_select_list (Some scenario_dir) ([KEY_DOWN] ++ [113])) = Browsing (mkNav 0 1 1).
Proof.
  assert (Hd : dir_ok scenario_dir) by (apply dir_okb_ok; vm_compute; reflexivity).
  assert (Hr : fst (emu_select_list (Some scenario_dir) [KEY_DOWN])
               = Browsing (mkNav 0 1 1)) by (vm_compute; reflexivity).
  assert (Hk : ~ bound_key 113).
  { unfold bound_key, KEY_UP, KEY_DOWN, KEY_RIGHT, KEY_LEFT, KEY_BACKSPACE, KEY_NEWLINE.
    lia. }
  split; [exact Hd|]. split; [exact Hr|]. split; [exact Hk|].
  exact (proj1 (unbound_key_ignored scenario_dir [KEY_DOWN] 113 (mkNav 0 1 1) Hd Hr Hk)).
Defined.

(** X5: KEY_BACKSPACE in a state the session waits in ends it with
    [Cancelled], whatever keys follow; the trace ends with the page that
    was shown and [endwin]. *)
Theorem backspace_cancels (dirents : list dirent) (keys rest : list Z) (s : nav) :
  dir_ok dirents ->
  fst (emu_select_list (Some dirents) keys) = Browsing s ->
  fst (emu_select_list (Some dirents) (keys ++ KEY_BACKSPACE :: rest)) = Cancelled /\
  exists before page,
    snd (emu_select_list (Some dirents) keys) = before ++ [EFrame page] /\
    snd (emu_select_list (Some dirents) (keys ++ KEY_BACKSPACE :: rest))
    = before ++ [EFrame page; EEndwin].
Proof.
  intros Hd H.
  destruct (session_wait_inv _ _ _ Hd H) as (Hn & Hs & Hw).
  pose proof (sorted_array_ok _ Hd Hn) as Harr.
  rewrite session_eq in Hs.
  assert (Hone : select_loop (emu_content_len dirents) (sorted_array dirents)
                             (entry_count dirents) (KEY_BACKSPACE :: rest) s
                 = (Cancelled,
                    [EFrame (r_draw (render (emu_content_len dirents)
                                            (sorted_array dirents) s)); EEndwin])).
  { rewrite (select_loop_one_key _ _ _ _ _ _ Harr Hw). reflexivity. }
  split.
  - rewrite (emu_select_list_fst _ _ Hd Hn), session_eq.
    rewrite (select_loop_resume _ _ _ keys _ nav0 s Hs), Hone. reflexivity.
  - destruct (select_loop_trace _ _ _ keys nav0 s Hs) as [before [Hb Hrest]].
    exists (EInitscr (column_sz (emu_content_len dirents))
                     (row_sz (emu_content_len dirents)) :: before).
    eexists. rewrite !(emu_select_list_snd _ _ Hd Hn), !session_eq.
    rewrite Hb, (Hrest (KEY_BACKSPACE :: rest)), Hone. split; reflexivity.
Qed.

Lemma backspace_cancels_witness :
  dir_ok scenario_dir /\
  fst (emu_select_list (Some scenario_dir) [KEY_DOWN]) = Browsing (mkNav 0 1 1) /\
  fst (emu_select_list (Some scenario_dir) ([KEY_DOWN] ++ KEY_BACKSPACE :: [KEY_NEWLINE]))
  = Cancelled.
Proof.
  assert (Hd : dir_ok scenario_dir) by (apply dir_okb_ok; vm_compute; reflexivity).
  assert (Hr : fst (emu_select_list (Some scenario_dir) [KEY_DOWN])
               = Browsing (mkNav 0 1 1)) by (vm_compute; reflexivity).
  split; [exact Hd|]. split; [exact Hr|].
  exact (proj1 (backspace_cancels scenario_dir [KEY_DOWN] [KEY_NEWLINE]
                                  (mkNav 0 1 1) Hd Hr)).
Defined.

(** X6: a session that is over is not changed by keys that follow: its
    outcome and its trace are those of the keys read so far. *)
Theorem ended_session_reads_no_more (dir : option (list dirent)) (keys rest : list Z) :
  ended (fst (emu_select_list dir keys)) ->
  emu_select_list dir (keys ++ rest) = emu_select_list dir keys.
Proof.
  destruct dir as [dirents|]; [|reflexivity].
  unfold emu_select_list.
  destruct (build_array dirents) as [[arr pre_idx]|]; [|reflexivity].
  destruct (pre_idx =? 0); [reflexivity|].
  intros H. rewrite fst_let in H.
  rewrite (select_loop_ended _ _ _ keys rest nav0 H). reflexivity.
Qed.

Lemma ended_session_reads_no_more_witness :
  ended (fst (emu_select_list (Some scenario_dir) [KEY_DOWN; KEY_NEWLINE])) /\
  emu_select_list (Some scenario_dir) ([KEY_DOWN; KEY_NEWLINE] ++ [KEY_UP; KEY_NEWLINE])
  = emu_select_list (Some scenario_dir) [KEY_DOWN; KEY_NEWLINE].
Proof.
  assert (H : ended (fst (emu_select_list (Some scenario_dir) [KEY_DOWN; KEY_NEWLINE])))
    by (vm_compute; exact I).
  split; [exact H|].
  exact (ended_session_reads_no_more (Some scenario_dir) [KEY_DOWN; KEY_NEWLINE]
                                     [KEY_UP; KEY_NEWLINE] H).
Defined.

(** X7: whatever keys are typed, a name the session chooses is one of
    the names listed, so the name of a regular file of the directory. *)
Theorem chosen_is_listed (dirents : list dirent) (keys : list Z) (name : string) :
  dir_ok dirents ->
  fst (emu_select_list (Some dirents) keys) = Chosen name ->
  In name (list_entries dirents) /\ In name (dir_names dirents).
Proof.
  intros Hd H.
  assert (Hin : In name (list_entries dirents)).
  { destruct (entry_count_cases dirents) as [E|Hn].
    - rewrite (emu_select_list_empty _ _ E) in H. discriminate.
    - rewrite (emu_select_list_fst _ _ Hd Hn) in H.
      pose proof (session_outcome_ok dirents keys Hd Hn) as Ho.
      rewrite H in Ho. cbn [outcome_ok] in Ho. destruct Ho as [i [Hi Hget]].
      pose proof (list_entries_length dirents) as L.
      unfold sorted_array in Hget. rewrite arr_get_entry in Hget by lia.
      injection Hget as <-. apply nth_In. lia. }
  split; [exact Hin|].
  eapply Permutation_in; [|exact Hin].
  apply Permutation_sym. unfold list_entries. apply qsort_perm.
Qed.

Lemma chosen_is_listed_witness :
  dir_ok scenario_dir /\
  fst (emu_select_list (Some scenario_dir) [KEY_DOWN; KEY_NEWLINE]) = Chosen "m.cfg" /\
  In "m.cfg"%string (dir_names scenario_dir).
Proof.
  assert (Hd : dir_ok scenario_dir) by (apply dir_okb_ok; vm_compute; reflexivity).
  assert (Hr : fst (emu_select_list (Some scenario_dir) [KEY_DOWN; KEY_NEWLINE])
               = Chosen "m.cfg") by (vm_compute; reflexivity).
  split; [exact Hd|]. split; [exact Hr|].
  exact (proj2 (chosen_is_listed scenario_dir [KEY_DOWN; KEY_NEWLINE] "m.cfg" Hd Hr)).
Defined.

(** The trace of the loop: one page per turn, then the ending. *)
Lemma select_loop_shape (cl : content_len_info) (arr : array) (pre_idx : Z)
      (keys : list Z) :
  forall s,
    fst (select_loop cl arr pre_idx keys s) <> MemoryFault ->
    exists pages,
      snd (select_loop cl arr pre_idx keys s)
      = map EFrame pages ++ ending_trace (fst (select_loop cl arr pre_idx keys s)) /\
      (1 <= List.length pages <= List.length keys + 1)%nat /\
      (~ ended (fst (select_loop cl arr pre_idx keys s)) ->
       List.length pages = (List.length keys + 1)%nat).
Proof.
  induction keys as [|ch keys IH]; intros s; rewrite select_loop_eq;
    destruct (r_exit (render cl arr s)); cbn [fst snd key_phase];
    intros H; try contradiction;
    try (exists [r_draw (render cl arr s)]; cbn [ended List.length map app ending_trace];
         split; [reflexivity|]; split; [lia | tauto]).
  all: destruct (on_key pre_idx ch _) as [s2|];
    [|exists [r_draw (render cl arr s)];
      cbn [fst snd ended List.length map app ending_trace];
      split; [reflexivity|]; split; [lia | tauto]].
  all: destruct (ch =? 10);
    [destruct (arr_get arr (run_idx s2)) as [[name|]|];
     cbn [fst snd] in H |- *; try contradiction;
     exists [r_draw (render cl arr s)];
     cbn [ended List.length map app ending_trace];
     split; [reflexivity|]; split; [lia | tauto]|].
  all: rewrite fst_let in H |- *; rewrite snd_let;
    destruct (IH s2 H) as [pages [Hp [Hl Hw]]];
    exists (r_draw (render cl arr s) :: pages);
    rewrite Hp; cbn [map app List.length];
    split; [reflexivity|]; split; [lia|]; intros Hne; rewrite (Hw Hne); reflexivity.
Qed.

(** X8: the shape of every session with something to list: the screen
    is started once, then each turn of the loop draws one whole page (at
    most one more page than keys, exactly one more while the session
    still waits), and a session that ends does so with a single
    [endwin] behind the last page, followed only by the message of the
    index limit. *)
Theorem session_trace_shape (dirents : list dirent) (keys : list Z) :
  dir_ok dirents -> 1 <= entry_count dirents ->
  exists pages,
    snd (emu_select_list (Some dirents) keys)
    = EInitscr (column_sz (emu_content_len dirents)) (row_sz (emu_content_len dirents))
        :: map EFrame pages
        ++ ending_trace (fst (emu_select_list (Some dirents) keys)) /\
    (1 <= List.length pages <= List.length keys + 1)%nat /\
    (~ ended (fst (emu_select_list (Some dirents) keys)) ->
     List.length pages = (List.length keys + 1)%nat).
Proof.
  intros Hd Hn.
  assert (Hnf : fst (session dirents keys) <> MemoryFault).
  { intros H. pose proof (session_outcome_ok dirents keys Hd Hn) as Ho.
    rewrite H in Ho. exact Ho. }
  rewrite (emu_select_list_fst _ _ Hd Hn), (emu_select_list_snd _ _ Hd Hn).
  rewrite session_eq in Hnf |- *.
  destruct (select_loop_shape _ _ _ keys nav0 Hnf) as [pages [Hp Hl]].
  exists pages. rewrite Hp. split; [reflexivity | exact Hl].
Qed.

Lemma session_trace_shape_witness :
  dir_ok scenario_dir /\ 1 <= entry_count scenario_dir /\
  exists pages,
    snd (emu_select_list (Some scenario_dir) [KEY_DOWN; KEY_BACKSPACE])
    = EInitscr (column_sz (emu_content_len scenario_dir))
               (row_sz (emu_content_len scenario_dir))
        :: map EFrame pages
        ++ ending_trace (fst (emu_select_list (Some scenario_dir) [KEY_DOWN; KEY_BACKSPACE])).
Proof.
  assert (Hd : dir_ok scenario_dir) by (apply dir_okb_ok; vm_compute; reflexivity).
  assert (Hn : 1 <= entry_count scenario_dir) by (vm_compute; intros H; discriminate H).
  split; [exact Hd|]. split; [exact Hn|].
  destruct (session_trace_shape scenario_dir [KEY_DOWN; KEY_BACKSPACE] Hd Hn)
    as [pages [Hp _]].
  exists pages. exact Hp.
Defined.

(* ------------------------------------------------------------------ *)
(** ** Sessions: reaching and choosing entries *)

(** The session starts by waiting on the first page. *)
Lemma session_start (dirents : list dirent) :
  dir_ok dirents -> 1 <= entry_count dirents ->
  exists s, fst (emu_select_list (Some dirents) []) = Browsing s /\
            xs s = 0 /\ run_idx s = 0.
Proof.
  intros Hd Hn. pose proof (sorted_array_ok _ Hd Hn) as Harr.
  rewrite (emu_select_list_fst _ _ Hd Hn), session_eq.
  destruct (render_wait_inv (emu_content_len dirents) _ _ nav0 Harr (nav0_inv _ Hn))
    as [(Hx & _) | (_ & E & _)]; [discriminate Hx|].
  rewrite select_loop_keys by tauto. cbn [key_phase fst].
  eexists. split; [reflexivity|].
  destruct (r_exit (render (emu_content_len dirents) (sorted_array dirents) nav0));
    split; reflexivity.
Qed.

(** One key that is not the line feed, in a session that waits: the
    session waits again in the state the [switch] gave, unless the page
    to draw is the one the index limit stops. *)
Lemma session_key_limit (dirents : list dirent) (keys : list Z) (ch : Z) (s s2 : nav) :
  dir_ok dirents ->
  fst (emu_select_list (Some dirents) keys) = Browsing s ->
  on_key (entry_count dirents) ch s = KeyContinue s2 ->
  ch <> 10 ->
  (xs s2 = 9990 /\ 10000 <= entry_count dirents /\
   fst (emu_select_list (Some dirents) (keys ++ [ch])) = IndexOutOfRange) \/
  (exists s', fst (emu_select_list (Some dirents) (keys ++ [ch])) = Browsing s' /\
              xs s' = xs s2 /\ run_idx s' = run_idx s2).
Proof.
  intros Hd H K Hch.
  destruct (session_wait_inv _ _ _ Hd H) as (Hn & Hs & Hw).
  pose proof (sorted_array_ok _ Hd Hn) as Harr. pose proof Hd as [_ Hmax].
  assert (H2 : loop_inv (entry_count dirents) s2)
    by (eapply on_key_inv; [exact Hmax | exact Hw | exact K]).
  rewrite (emu_select_list_fst _ _ Hd Hn), session_eq.
  rewrite session_eq in Hs.
  rewrite (select_loop_resume _ _ _ keys [ch] nav0 s Hs).
  rewrite (select_loop_one_key _ _ _ _ _ _ Harr Hw). cbn [key_phase]. rewrite K.
  destruct (Z.eqb_spec ch 10) as [E10|_]; [contradiction|].
  rewrite fst_let.
  destruct (render_wait_inv (emu_content_len dirents) _ _ s2 Harr H2)
    as [(Hx & Hbig & Ex) | (_ & Ex & _)].
  - left. split; [exact Hx|]. split; [exact Hbig|].
    rewrite select_loop_eq, Ex. reflexivity.
  - right. rewrite select_loop_keys by tauto. cbn [key_phase fst].
    eexists. split; [reflexivity|].
    destruct (r_exit (render (emu_content_len dirents) (sorted_array dirents) s2));
      split; reflexivity.
Qed.

(** The line feed in a session that waits chooses the entry under the
    cursor. *)
Lemma session_confirm (dirents : list dirent) (keys rest : list Z) (s : nav) :
  dir_ok dirents ->
  fst (emu_select_list (Some dirents) keys) = Browsing s ->
  fst (emu_select_list (Some dirents) (keys ++ KEY_NEWLINE :: rest))
  = Chosen (nth (Z.to_nat (run_idx s)) (list_entries dirents) EmptyString).
Proof.
  intros Hd H.
  destruct (session_wait_inv _ _ _ Hd H) as (Hn & Hs & Hw).
  pose proof (sorted_array_ok _ Hd Hn) as Harr.
  pose proof Hw as [(_ & _ & _ & Hrun & _) _].
  rewrite (emu_select_list_fst _ _ Hd Hn), session_eq.
  rewrite session_eq in Hs.
  rewrite (select_loop_resume _ _ _ keys (KEY_NEWLINE :: rest) nav0 s Hs).
  rewrite (select_loop_one_key _ _ _ _ _ _ Harr Hw). cbn [key_phase].
  change (on_key (entry_count dirents) KEY_NEWLINE s) with (KeyContinue s).
  change (KEY_NEWLINE =? 10) with true. cbv iota.
  unfold sorted_array. rewrite arr_get_entry; [reflexivity|].
  rewrite list_entries_length. exact Hrun.
Qed.

Lemma on_key_down (pre_idx : Z) (s : nav) :
  pre_idx <= INT_MAX -> 0 <= run_idx s < pre_idx ->
  on_key pre_idx KEY_DOWN s
  = KeyContinue (mkNav (xs s) (Z.min (run_idx s + 1) (pre_idx - 1)) (end_page s)).
Proof.
  intros Hmax Hrun. unfold on_key.
  change (KEY_DOWN =? KEY_UP) with false.
  change (KEY_DOWN =? KEY_DOWN) with true. cbv iota.
  unfold INT_MAX in Hmax.
  rewrite !int_wrap_id by (unfold INT_MIN, INT_MAX; lia).
  do 2 f_equal. destruct (Z.geb_spec (run_idx s + 1) pre_idx); lia.
Qed.

(** KEY_DOWN typed [i] times from the start puts the cursor on entry
    [i], the first page staying shown. *)
Lemma session_downs (dirents : list dirent) (i : nat) :
  dir_ok dirents -> Z.of_nat i < entry_count dirents ->
  exists s, fst (emu_select_list (Some dirents) (repeat KEY_DOWN i)) = Browsing s /\
            xs s = 0 /\ run_idx s = Z.of_nat i.
Proof.
  intros Hd. induction i as [|i IH]; intros Hi.
  - apply session_start; [exact Hd | lia].
  - destruct IH as [s [Hs [Hx Hr]]]; [lia|].
    destruct (session_wait_inv _ _ _ Hd Hs) as (_ & _ & Hw).
    pose proof Hw as [(_ & _ & _ & Hrun & _) _]. pose proof Hd as [_ Hmax].
    pose proof (on_key_down (entry_count dirents) s Hmax Hrun) as K.
    assert (H10 : KEY_DOWN <> 10) by (unfold KEY_DOWN; lia).
    replace (repeat KEY_DOWN (S i)) with (repeat KEY_DOWN i ++ [KEY_DOWN])
      by (symmetry; apply repeat_cons).
    destruct (session_key_limit _ _ _ _ _ Hd Hs K H10)
      as [(Hx9 & _) | [s' (Hs' & Hx' & Hr')]].
    + cbn [xs] in Hx9. lia.
    + exists s'. split; [exact Hs'|]. cbn [xs run_idx] in Hx', Hr'.
      split; [lia|]. rewrite Hr'. lia.
Qed.

(** X9: every entry listed can be chosen: KEY_DOWN typed [i] times and
    the line feed choose entry [i] of the sorted list, for every index
    [i] of the list. *)
Theorem every_entry_selectable (dirents : list dirent) (i : nat) (rest : list Z) :
  dir_ok dirents ->
  (i < List.length (list_entries dirents))%nat ->
  fst (emu_select_list (Some dirents) (repeat KEY_DOWN i ++ KEY_NEWLINE :: rest))
  = Chosen (nth i (list_entries dirents) EmptyString).
Proof.
  intros Hd Hi. pose proof (list_entries_length dirents) as L.
  destruct (session_downs dirents i Hd) as [s [Hs [_ Hr]]]; [lia|].
  rewrite (session_confirm _ _ rest _ Hd Hs), Hr, Nat2Z.id. reflexivity.
Qed.

Lemma every_entry_selectable_witness :
  dir_ok (cfg_dir 25) /\
  (17 < List.length (list_entries (cfg_dir 25)))%nat /\
  fst (emu_select_list (Some (cfg_dir 25)) (repeat KEY_DOWN 17 ++ KEY_NEWLINE :: []))
  = Chosen (nth 17 (list_entries (cfg_dir 25)) EmptyString).
Proof.
  assert (Hd : dir_ok (cfg_dir 25)) by (apply dir_okb_ok; vm_compute; reflexivity).
  assert (Hi : (17 < List.length (list_entries (cfg_dir 25)))%nat)
    by (vm_compute; lia).
  split; [exact Hd|]. split; [exact Hi|].
  exact (every_entry_selectable (cfg_dir 25) 17 [] Hd Hi).
Defined.

Lemma emu_select_list_ended (dir : option (list dirent)) (keys rest : list Z) :
  ended (fst (emu_select_list dir keys)) ->
  emu_select_list dir (keys ++ rest) = emu_select_list dir keys.
Proof.
  destruct dir as [dirents|]; [|reflexivity].
  unfold emu_select_list.
  destruct (build_array dirents) as [[arr pre_idx]|]; [|reflexivity].
  destruct (pre_idx =? 0); [reflexivity|].
  intros H. rewrite fst_let in H.
  rewrite (select_loop_ended _ _ _ keys rest nav0 H). reflexivity.
Qed.

Lemma on_key_right (pre_idx : Z) (s : nav) :
  end_page s = 0 -> 0 <= xs s <= 9990 ->
  on_key pre_idx KEY_RIGHT s = KeyContinue (mkNav (xs s + 10) (xs s + 10) 0).
Proof.
  intros He Hx. unfold on_key.
  change (KEY_RIGHT =? KEY_UP) with false.
  change (KEY_RIGHT =? KEY_DOWN) with false.
  change (KEY_RIGHT =? KEY_RIGHT) with true. cbv iota.
  rewrite He. cbn [Z.eqb].
  rewrite int_wrap_id by (unfold INT_MIN, INT_MAX; lia). reflexivity.
Qed.

Lemma on_key_left (pre_idx : Z) (s : nav) :
  0 < xs s <= 9990 ->
  on_key pre_idx KEY_LEFT s = KeyContinue (mkNav (xs s - 10) (xs s - 10) 0).
Proof.
  intros Hx. unfold on_key.
  change (KEY_LEFT =? KEY_UP) with false.
  change (KEY_LEFT =? KEY_DOWN) with false.
  change (KEY_LEFT =? KEY_RIGHT) with false.
  change (KEY_LEFT =? KEY_LEFT) with true. cbv iota.
  destruct (Z.gtb_spec (xs s) 0); [|lia].
  rewrite int_wrap_id by (unfold INT_MIN, INT_MAX; lia). reflexivity.
Qed.

Lemma nav_eta (s : nav) (x r e : Z) :
  xs s = x -> run_idx s = r -> end_page s = e -> s = mkNav x r e.
Proof. destruct s; simpl. intros -> -> ->. reflexivity. Qed.

Lemma app_two {A : Type} (l : list A) (a b : A) : l ++ [a; b] = (l ++ [a]) ++ [b].
Proof. rewrite <- app_assoc. reflexivity. Qed.

(** X10: paging there and back. From a page that is not the last,
    KEY_RIGHT then KEY_LEFT come back to the page with the cursor on
    its first entry (unless the next page is the one the index limit
    stops, which ends the session); from a page that is not the first,
    KEY_LEFT then KEY_RIGHT come back to it with the cursor on its
    first entry. *)
Theorem page_round_trip (dirents : list dirent) (keys : list Z) (s : nav) :
  dir_ok dirents ->
  fst (emu_select_list (Some dirents) keys) = Browsing s ->
  (end_page s = 0 ->
   (xs s = 9980 /\ 10000 <= entry_count dirents /\
    fst (emu_select_list (Some dirents) (keys ++ [KEY_RIGHT; KEY_LEFT]))
    = IndexOutOfRange) \/
   fst (emu_select_list (Some dirents) (keys ++ [KEY_RIGHT; KEY_LEFT]))
   = Browsing (mkNav (xs s) (xs s) 0)) /\
  (0 < xs s ->
   fst (emu_select_list (Some dirents) (keys ++ [KEY_LEFT; KEY_RIGHT]))
   = Browsing (mkNav (xs s) (xs s) (end_page s))).
Proof.
  intros Hd H.
  destruct (session_wait_inv _ _ _ Hd H) as (Hn & _ & Hw).
  pose proof Hw as [(Hxs & Hmod & Hpage & Hrun & Hflag & Hlast) [Hset Hcap]].
  assert (HR : KEY_RIGHT <> 10) by (unfold KEY_RIGHT; lia).
  assert (HL : KEY_LEFT <> 10) by (unfold KEY_LEFT; lia).
  split.
  - intros He. rewrite app_two.
    pose proof (on_key_right (entry_count dirents) s He Hxs) as K.
    destruct (session_key_limit _ _ _ _ _ Hd H K HR)
      as [(Hx9 & Hbig & Hout) | [s1 (H1 & Hx1 & Hr1)]]; cbn [xs run_idx] in *.
    + left. split; [lia|]. split; [exact Hbig|].
      assert (Hend : ended (fst (emu_select_list (Some dirents) (keys ++ [KEY_RIGHT]))))
        by (rewrite Hout; exact I).
      rewrite (emu_select_list_ended _ _ [KEY_LEFT] Hend). exact Hout.
    + right.
      destruct (session_wait_inv _ _ _ Hd H1) as (_ & _ & Hw1).
      pose proof Hw1 as [(Hxs1 & _) _].
      assert (K1 : on_key (entry_count dirents) KEY_LEFT s1
                   = KeyContinue (mkNav (xs s) (xs s) 0)).
      { rewrite on_key_left by lia. rewrite Hx1.
        replace (xs s + 10 - 10) with (xs s) by lia. reflexivity. }
      destruct (session_key_limit _ _ _ _ _ Hd H1 K1 HL)
        as [(Hx9 & Hbig & _) | [s2 (H2 & Hx2 & Hr2)]]; cbn [xs run_idx] in *; [lia|].
      rewrite H2. f_equal.
      destruct (session_wait_inv _ _ _ Hd H2) as (_ & _ & Hw2).
      destruct Hw2 as [(_ & _ & _ & _ & Hflag2 & Hlast2) _].
      apply nav_eta; [exact Hx2 | exact Hr2 | lia].
  - intros Hpos. rewrite app_two.
    assert (K : on_key (entry_count dirents) KEY_LEFT s
                = KeyContinue (mkNav (xs s - 10) (xs s - 10) 0))
      by (apply on_key_left; lia).
    destruct (session_key_limit _ _ _ _ _ Hd H K HL)
      as [(Hx9 & _) | [s1 (H1 & Hx1 & Hr1)]]; cbn [xs run_idx] in *; [lia|].
    destruct (session_wait_inv _ _ _ Hd H1) as (_ & _ & Hw1).
    pose proof Hw1 as [(Hxs1 & _ & _ & _ & Hflag1 & Hlast1) _].
    assert (K1 : on_key (entry_count dirents) KEY_RIGHT s1
                 = KeyContinue (mkNav (xs s) (xs s) 0)).
    { rewrite on_key_right by lia. rewrite Hx1.
      replace (xs s - 10 + 10) with (xs s) by lia. reflexivity. }
    destruct (session_key_limit _ _ _ _ _ Hd H1 K1 HR)
      as [(Hx9 & Hbig & _) | [s2 (H2 & Hx2 & Hr2)]]; cbn [xs run_idx] in *; [lia|].
    rewrite H2. f_equal.
    destruct (session_wait_inv _ _ _ Hd H2) as (_ & _ & Hw2).
    destruct Hw2 as [(_ & _ & _ & _ & Hflag2 & Hlast2) [Hset2 _]].
    apply nav_eta; [exact Hx2 | exact Hr2 | lia].
Qed.

Lemma page_round_trip_witness :
  dir_ok (cfg_dir 25) /\
  fst (emu_select_list (Some (cfg_dir 25)) [KEY_RIGHT; KEY_DOWN]) = Browsing (mkNav 10 11 0) /\
  fst (emu_select_list (Some (cfg_dir 25)) ([KEY_RIGHT; KEY_DOWN] ++ [KEY_LEFT; KEY_RIGHT]))
  = Browsing (mkNav 10 10 0).
Proof.
  assert (Hd : dir_ok (cfg_dir 25)) by (apply dir_okb_ok; vm_compute; reflexivity).
  assert (Hr : fst (emu_select_list (Some (cfg_dir 25)) [KEY_RIGHT; KEY_DOWN])
               = Browsing (mkNav 10 11 0)) by (vm_compute; reflexivity).
  assert (Hp : 0 < xs (mkNav 10 11 0)) by (simpl; lia).
  split; [exact Hd|]. split; [exact Hr|].
  exact (proj2 (page_round_trip (cfg_dir 25) [KEY_RIGHT; KEY_DOWN] (mkNav 10 11 0) Hd Hr) Hp).
Defined.

(* ------------------------------------------------------------------ *)
(** ** What a page shows *)

Lemma indices_from_nil (a b : Z) : b <= a -> indices_from a b = [].
Proof.
  intros H. unfold indices_from.
  replace (Z.to_nat (b - a)) with 0%nat by lia. reflexivity.
Qed.

Lemma indices_from_cons (a b : Z) :
  a < b -> indices_from a b = a :: indices_from (a + 1) b.
Proof.
  intros H. unfold indices_from.
  replace (Z.to_nat (b - a)) with (S (Z.to_nat (b - (a + 1)))) by lia.
  cbn [seq map]. f_equal; [lia|].
  rewrite <- seq_shift, map_map. apply map_ext. intros k. lia.
Qed.

Lemma in_indices_from (a b i : Z) : In i (indices_from a b) <-> a <= i < b.
Proof.
  unfold indices_from. rewrite in_map_iff. split.
  - intros [k [<- Hk]]. apply in_seq in Hk. lia.
  - intros H. exists (Z.to_nat (i - a)). split; [lia|]. apply in_seq. lia.
Qed.

Lemma prints_no_attr (xw i : Z) (name : string) : ~ In DWattron (prints xw i name).
Proof.
  unfold prints. intros H.
  repeat (apply in_app_or in H; destruct H as [H|H]);
    match type of H with
    | In _ (if ?c then _ else _) => destruct c
    end; simpl in H; intuition discriminate.
Qed.

Lemma in_row_draw (run xs0 i : Z) (name : string) :
  In DWattron (row_draw run xs0 i name) <-> i = run.
Proof.
  unfold row_draw. split.
  - intros H. apply in_app_or in H. destruct H as [H|H].
    + destruct (Z.eqb_spec i run); [assumption | contradiction].
    + apply in_app_or in H. destruct H as [H|H];
        [exfalso; exact (prints_no_attr _ _ _ H)|].
      destruct (Z.eqb_spec i run); [assumption | contradiction].
  - intros ->. rewrite Z.eqb_refl. left. reflexivity.
Qed.

(** The rows the render loop draws, from [new_idx] on. *)
Lemma render_rows_draw (es : list string) (k : nat) (xs0 run : Z) :
  0 <= xs0 <= 9990 ->
  xs0 + 10 <= 9999 \/ Z.of_nat (List.length es) <= 9999 ->
  forall (fuel : nat) (new_idx : Z),
    xs0 <= new_idx <= xs0 + 10 -> new_idx < Z.of_nat (List.length es) ->
    (Z.to_nat (xs0 + 10 - new_idx) < fuel)%nat ->
    r_draw (render_rows fuel (map Some es ++ repeat None (S k)) xs0 run
                        new_idx (new_idx - xs0))
    = flat_map (fun i => row_draw run xs0 i (nth (Z.to_nat i) es EmptyString))
               (indices_from new_idx (Z.min (xs0 + 10) (Z.of_nat (List.length es)))).
Proof.
  intros Hxs Hlim.
  assert (Hw : forall z, -10 <= z <= 10001 -> int_wrap z = z)
    by (intros z Hz; apply int_wrap_id; unfold INT_MIN, INT_MAX; lia).
  induction fuel as [|fuel IH]; intros new_idx Hn Hlt Hfuel; [lia|].
  cbn [render_rows]. rewrite !Hw by lia.
  destruct (Z.ltb_spec new_idx (xs0 + 10)) as [Hin|Hout].
  - rewrite arr_get_entry by lia.
    destruct (Z.gtb_spec (new_idx + 1) 9999) as [Hbig|Hsmall]; [lia|].
    rewrite indices_from_cons by lia. cbn [flat_map].
    destruct (Z.eq_dec (new_idx + 1) (Z.of_nat (List.length es))) as [Elast|Emore].
    + rewrite arr_get_null by lia. cbn [r_draw].
      rewrite indices_from_nil by lia. cbn [flat_map].
      rewrite app_nil_r. reflexivity.
    + rewrite arr_get_entry by lia. cbn [r_draw].
      replace (new_idx - xs0 + 1) with (new_idx + 1 - xs0) by lia.
      rewrite IH by lia. unfold row_draw at 2.
      rewrite <- !app_assoc. reflexivity.
  - cbn [r_draw]. rewrite indices_from_nil by lia. reflexivity.
Qed.

(** X11: the page a waiting session shows. After the frame is cleared,
    the loop draws the entries with index [xs <= i < min (xs + 10) N],
    in order, entry [i] on line [i - xs + 3] under the number [i + 1];
    this is the last page of the trace; and a row is highlighted
    exactly when the cursor is on the page. *)
Theorem page_drawn (dirents : list dirent) (keys : list Z) (s : nav) :
  dir_ok dirents ->
  fst (emu_select_list (Some dirents) keys) = Browsing s ->
  let page :=
    DClearFrame (row_sz (emu_content_len dirents))
      :: flat_map (fun i => row_draw (run_idx s) (xs s) i
                                     (nth (Z.to_nat i) (list_entries dirents) EmptyString))
                  (indices_from (xs s) (Z.min (xs s + 10) (entry_count dirents))) in
  r_draw (render (emu_content_len dirents) (sorted_array dirents) s) = page /\
  (exists before, snd (emu_select_list (Some dirents) keys) = before ++ [EFrame page]) /\
  (In DWattron page <-> xs s <= run_idx s < xs s + 10).
Proof.
  intros Hd H page.
  destruct (session_wait_inv _ _ _ Hd H) as (Hn & Hs & Hw).
  destruct Hw as [(Hxs & Hmod & Hpage & Hrun & _) [_ Hcap]].
  pose proof (list_entries_length dirents) as L.
  pose proof (spare_pos _ Hd) as Hsp.
  assert (Hdraw : r_draw (render (emu_content_len dirents) (sorted_array dirents) s) = page).
  { rewrite render_draw_eq. unfold page. f_equal.
    unfold sorted_array.
    replace (spare dirents) with (S (pred (spare dirents))) by lia.
    replace 0 with (xs s - xs s) at 1 by lia.
    rewrite render_rows_draw; unfold row_fuel; try lia.
    rewrite L. reflexivity. }
  split; [exact Hdraw|]. split.
  - rewrite session_eq in Hs.
    destruct (select_loop_trace _ _ _ keys nav0 s Hs) as [before [Hb _]].
    exists (EInitscr (column_sz (emu_content_len dirents))
                     (row_sz (emu_content_len dirents)) :: before).
    rewrite (emu_select_list_snd _ _ Hd Hn), session_eq, Hb, Hdraw. reflexivity.
  - unfold page. split.
    + intros [Hc | Hin]; [discriminate Hc|].
      apply in_flat_map in Hin. destruct Hin as [i [Hi Hrow]].
      apply in_indices_from in Hi. apply in_row_draw in Hrow. lia.
    + intros Hon. right. apply in_flat_map. exists (run_idx s). split.
      * apply in_indices_from. lia.
      * apply in_row_draw. reflexivity.
Qed.

Lemma page_drawn_witness :
  dir_ok (cfg_dir 25) /\
  fst (emu_select_list (Some (cfg_dir 25)) [KEY_RIGHT; KEY_UP]) = Browsing (mkNav 10 9 0) /\
  ~ In DWattron
      (r_draw (render (emu_content_len (cfg_dir 25)) (sorted_array (cfg_dir 25))
                      (mkNav 10 9 0))).
Proof.
  assert (Hd : dir_ok (cfg_dir 25)) by (apply dir_okb_ok; vm_compute; reflexivity).
  assert (Hr : fst (emu_select_list (Some (cfg_dir 25)) [KEY_RIGHT; KEY_UP])
               = Browsing (mkNav 10 9 0)) by (vm_compute; reflexivity).
  split; [exact Hd|]. split; [exact Hr|].
  destruct (page_drawn (cfg_dir 25) [KEY_RIGHT; KEY_UP] (mkNav 10 9 0) Hd Hr)
    as (Hdraw & _ & Hiff).
  rewrite Hdraw. intros Hin. apply Hiff in Hin. cbn [xs run_idx] in Hin. lia.
Defined.

(* ------------------------------------------------------------------ *)
(** ** The configuration directory and its files *)

Lemma get_directory_path (home : string) :
  strlen home + 9 <= SIZE_MAX ->
  snprintf (size_wrap (strlen home + 9)) (home ++ "/.emubox/")
  = (home ++ "/.emubox")%string.
Proof.
  intros H. pose proof (strlen_nonneg home) as H0.
  rewrite size_wrap_id by lia.
  replace (home ++ "/.emubox/")%string with ((home ++ "/.emubox") ++ "/")%string
    by (rewrite app_assoc_string; reflexivity).
  replace (strlen home + 9) with (strlen (home ++ "/.emubox") + 1)
    by (rewrite strlen_app; change (strlen "/.emubox") with 8; lia).
  apply snprintf_cut.
Qed.

Lemma init_directory_path (home : string) :
  strlen home + 9 <= SIZE_MAX ->
  snprintf (size_wrap (strlen home + 9)) (home ++ "/.emubox")
  = (home ++ "/.emubox")%string.
Proof.
  intros H. pose proof (strlen_nonneg home) as H0.
  rewrite size_wrap_id by lia. apply snprintf_fits.
  rewrite strlen_app. change (strlen "/.emubox") with 8. lia.
Qed.

Lemma get_directory_found (env : sys_env) (path : string) (e : list sys_effect) :
  emu_get_directory env = (Some path, e) -> e = [].
Proof.
  unfold emu_get_directory. destruct (env_home env) as [home|]; [|discriminate].
  destruct (env_stat env _); intros H; try discriminate.
  injection H as _ <-. reflexivity.
Qed.

(** X12: the directory path. [emu_get_directory] returns
    [$HOME/.emubox], the last ['/'] of its format being cut by the size
    of the buffer, and only when [stat] finds it; this is the path
    [emu_init_directory] calls [mkdir] with, and the only one. *)
Theorem config_directory_path (env : sys_env) (home : string) :
  env_home env = Some home ->
  strlen home + 9 <= SIZE_MAX ->
  emu_get_directory env
  = match env_stat env (home ++ "/.emubox") with
    | StatOk => (Some (home ++ "/.emubox")%string, [])
    | _ => (None, [SStderr msg_dir_not_found])
    end /\
  unlinked (fst (emu_init_directory env)) = [] /\
  (forall p, In (SMkdir p) (fst (emu_init_directory env)) <-> p = (home ++ "/.emubox")%string) /\
  (snd (emu_init_directory env) = Returns
   <-> env_mkdir env (home ++ "/.emubox") = MkdirOk).
Proof.
  intros Hh Hfit. unfold emu_get_directory, emu_init_directory. rewrite Hh.
  rewrite (get_directory_path home Hfit), (init_directory_path home Hfit).
  split; [destruct (env_stat env (home ++ "/.emubox")); reflexivity|].
  destruct (env_mkdir env (home ++ "/.emubox")); cbn [fst snd unlinked];
    (split; [reflexivity|]); split;
    try (intros p; split;
         [intros [Hp | [Hp | []]]; [injection Hp as <-; reflexivity | discriminate Hp]
         | intros ->; left; reflexivity]);
    split; intros H; try reflexivity; discriminate H.
Qed.

Lemma config_directory_path_witness :
  emu_get_directory
    (mkEnv (Some "/home/u"%string) (fun _ => StatOk) (fun _ => true)
           (fun _ => UnlinkOk) (fun _ => MkdirOk) true)
  = (Some "/home/u/.emubox"%string, []).
Proof.
  assert (Hh : env_home (mkEnv (Some "/home/u"%string) (fun _ => StatOk) (fun _ => true)
                               (fun _ => UnlinkOk) (fun _ => MkdirOk) true)
               = Some "/home/u"%string) by reflexivity.
  assert (Hf : strlen "/home/u" + 9 <= SIZE_MAX) by (vm_compute; discriminate).
  exact (proj1 (config_directory_path _ "/home/u" Hh Hf)).
Defined.

Lemma prefix_refl (b : string) : String.prefix b b = true.
Proof. apply prefix_correct. apply substring_all. lia. Qed.

Lemma strstr_app (a b : string) : strstr (a ++ b) b = true.
Proof.
  induction a as [|c a IH].
  - cbn [append]. destruct b as [|d b]; [reflexivity|].
    cbn [strstr]. rewrite prefix_refl. reflexivity.
  - change (String c a ++ b)%string with (String c (a ++ b)).
    cbn [strstr]. destruct (String.prefix b (String c (a ++ b))); [reflexivity | exact IH].
Qed.

Lemma cfg_file_has_cfg (name : string) : strstr (cfg_file name) ".cfg" = true.
Proof.
  unfold cfg_file. destruct (strstr name ".cfg") eqn:E; [exact E | apply strstr_app].
Qed.

Lemma create_path (path name : string) :
  strlen path + strlen name + 10 <= SIZE_MAX ->
  snprintf (size_wrap (strlen path + strlen name + 10))
           (if strstr name ".cfg" then path ++ "/" ++ name
            else path ++ "/" ++ name ++ ".cfg")
  = (path ++ "/" ++ cfg_file name)%string.
Proof.
  intros H. pose proof (strlen_nonneg path). pose proof (strlen_nonneg name).
  rewrite size_wrap_id by lia. unfold cfg_file.
  destruct (strstr name ".cfg"); apply snprintf_fits; rewrite !strlen_app;
    change (strlen "/") with 1; try change (strlen ".cfg") with 4; lia.
Qed.

(** X13: [emu_create_new], once the directory is found. It returns (no
    exit); the only file it may create is [path/name], with [".cfg"]
    added unless the name holds it already, so the file name always
    holds [".cfg"]; it creates nothing when [stat] finds that file, and
    then says so with the name of the file. *)
Theorem create_new_target (env : sys_env) (path name : string) (e : list sys_effect) :
  emu_get_directory env = (Some path, e) ->
  strlen path + strlen name + 10 <= SIZE_MAX ->
  let target := (path ++ "/" ++ cfg_file name)%string in
  snd (emu_create_new env name) = Returns /\
  unlinked (fst (emu_create_new env name)) = [] /\
  strstr (cfg_file name) ".cfg" = true /\
  (forall p, In (SCreat p) (fst (emu_create_new env name))
             <-> p = target /\ env_stat env target <> StatOk) /\
  (env_stat env target = StatOk ->
   fst (emu_create_new env name)
   = [SStderr ("emubox: file " ++ DQ ++ emu_basename target ++ DQ
               ++ " already exists." ++ LF)]).
Proof.
  intros Hdir Hfit target.
  pose proof (get_directory_found _ _ _ Hdir) as ->.
  unfold emu_create_new. rewrite Hdir. rewrite (create_path path name Hfit).
  fold target.
  split; [destruct (env_stat env target); try reflexivity;
          destruct (env_open env target); reflexivity|].
  split; [destruct (env_stat env target); try reflexivity;
          destruct (env_open env target); reflexivity|].
  split; [apply cfg_file_has_cfg|].
  split.
  - intros p. destruct (env_stat env target) eqn:Es;
      try (destruct (env_open env target)); cbn [fst app In]; split;
      try (intros [Hp | [Hp | []]]; try discriminate Hp;
           injection Hp as <-; split; [reflexivity | discriminate]);
      try (intros [Hp | []]; discriminate Hp);
      try (intros [-> _]; left; reflexivity);
      intros [_ Hne]; contradiction.
  - intros Hs. rewrite Hs. reflexivity.
Qed.

Lemma create_new_target_witness :
  emu_get_directory
    (mkEnv (Some "/home/u"%string)
           (fun p => if String.eqb p "/home/u/.emubox" then StatOk else StatENOENT)
           (fun _ => true) (fun _ => UnlinkOk) (fun _ => MkdirEEXIST) true)
  = (Some "/home/u/.emubox"%string, []) /\
  In (SCreat "/home/u/.emubox/dos.cfg")
     (fst (emu_create_new
             (mkEnv (Some "/home/u"%string)
                    (fun p => if String.eqb p "/home/u/.emubox" then StatOk else StatENOENT)
                    (fun _ => true) (fun _ => UnlinkOk) (fun _ => MkdirEEXIST) true)
             "dos")).
Proof.
  set (env := mkEnv (Some "/home/u"%string)
                    (fun p => if String.eqb p "/home/u/.emubox" then StatOk else StatENOENT)
                    (fun _ => true) (fun _ => UnlinkOk) (fun _ => MkdirEEXIST) true).
  assert (Hdir : emu_get_directory env = (Some "/home/u/.emubox"%string, []))
    by reflexivity.
  assert (Hf : strlen "/home/u/.emubox" + strlen "dos" + 10 <= SIZE_MAX)
    by (vm_compute; discriminate).
  split; [exact Hdir|].
  destruct (create_new_target env "/home/u/.emubox" "dos" [] Hdir Hf)
    as (_ & _ & _ & Hc & _).
  apply Hc. split; [reflexivity | discriminate].
Defined.

Lemma purge_target_path (env : sys_env) (path name : string) :
  strlen path + strlen name + 7 <= SIZE_MAX ->
  purge_target env path name
  = Some (if strstr name ".cfg" then (path ++ "/" ++ name)%string
          else match env_stat env (path ++ "/" ++ name ++ ".cfg") with
               | StatENOENT => (path ++ "/" ++ name)%string
               | _ => (path ++ "/" ++ name ++ ".cfg")%string
               end).
Proof.
  intros H. pose proof (strlen_nonneg path). pose proof (strlen_nonneg name).
  assert (Hl : strlen (path ++ "/" ++ name) = strlen path + 1 + strlen name)
    by (rewrite !strlen_app; change (strlen "/") with 1; lia).
  unfold purge_target. rewrite size_wrap_id by lia.
  rewrite snprintf_fits by lia.
  destruct (strstr name ".cfg"); [reflexivity|].
  unfold memcpy_end. change (strlen ".cfg") with 4.
  destruct (Z.ltb_spec (strlen (path ++ "/" ++ name) + 4)
                       (strlen path + strlen name + 7)); [|lia].
  replace ((path ++ "/" ++ name) ++ ".cfg")%string
    with (path ++ "/" ++ name ++ ".cfg")%string
    by (rewrite !app_assoc_string; reflexivity).
  destruct (env_stat env (path ++ "/" ++ name ++ ".cfg")); try reflexivity.
  f_equal.
  replace (path ++ "/" ++ name ++ ".cfg")%string
    with ((path ++ "/" ++ name) ++ ".cfg")%string
    by (rewrite !app_assoc_string; reflexivity).
  unfold strlen. rewrite Nat2Z.id. apply substring_app.
Qed.

(** X14: [emu_purge_config], once the directory is found. The write of
    [".cfg"] stays inside the path buffer; [unlink] is called once, with
    [path/name] when the name holds [".cfg"], else with [path/name.cfg]
    unless [stat] says that file is missing, when it is [path/name];
    nothing else is unlinked or created; and it returns exactly when
    [unlink] succeeds, else it exits with failure. *)
Theorem purge_config_target (env : sys_env) (path name : string) (e : list sys_effect) :
  emu_get_directory env = (Some path, e) ->
  strlen path + strlen name + 7 <= SIZE_MAX ->
  let p := if strstr name ".cfg" then (path ++ "/" ++ name)%string
           else match env_stat env (path ++ "/" ++ name ++ ".cfg") with
                | StatENOENT => (path ++ "/" ++ name)%string
                | _ => (path ++ "/" ++ name ++ ".cfg")%string
                end in
  exists t en,
    emu_purge_config env name = Some (t, en) /\
    unlinked t = [p] /\
    (forall q, ~ In (SCreat q) t) /\
    (en = Returns <-> env_unlink env p = UnlinkOk) /\
    (en <> Returns -> en = Exits EXIT_FAILURE).
Proof.
  intros Hdir Hfit p.
  pose proof (get_directory_found _ _ _ Hdir) as ->.
  unfold emu_purge_config. rewrite Hdir, (purge_target_path env path name Hfit).
  fold p.
  destruct (env_unlink env p); do 2 eexists; (split; [reflexivity|]);
    cbn [app unlinked]; (split; [reflexivity|]); split;
    try (intros q [Hq | [Hq | []]]; discriminate Hq);
    split; try (split; intros H; try reflexivity; discriminate H);
    intros H; try reflexivity; contradiction H; reflexivity.
Qed.

Lemma purge_config_target_witness :
  exists t en,
    emu_purge_config
      (mkEnv (Some "/home/u"%string)
             (fun p => if String.eqb p "/home/u/.emubox" then StatOk else StatENOENT)
             (fun _ => true) (fun _ => UnlinkOk) (fun _ => MkdirEEXIST) true)
      "dos" = Some (t, en) /\
    unlinked t = ["/home/u/.emubox/dos"%string].
Proof.
  set (env := mkEnv (Some "/home/u"%string)
                    (fun p => if String.eqb p "/home/u/.emubox" then StatOk else StatENOENT)
                    (fun _ => true) (fun _ => UnlinkOk) (fun _ => MkdirEEXIST) true).
  assert (Hdir : emu_get_directory env = (Some "/home/u/.emubox"%string, []))
    by reflexivity.
  assert (Hf : strlen "/home/u/.emubox" + strlen "dos" + 7 <= SIZE_MAX)
    by (vm_compute; discriminate).
  destruct (purge_config_target env "/home/u/.emubox" "dos" [] Hdir Hf)
    as [t [en (H1 & H2 & _)]].
  exists t, en. split; [exact H1 | exact H2].
Defined.

(** X15: what [emu_create_new] created, [emu_purge_config] deletes: if
    creating [name] called [open] on a file, then purging the same
    [name] later, the directory being the same and [stat] finding the
    file, unlinks that file and nothing else. *)
Theorem purge_deletes_created (env env' : sys_env) (path name p : string)
        (e e' : list sys_effect) :
  emu_get_directory env = (Some path, e) ->
  emu_get_directory env' = (Some path, e') ->
  strlen path + strlen name + 10 <= SIZE_MAX ->
  In (SCreat p) (fst (emu_create_new env name)) ->
  env_stat env' p = StatOk ->
  exists t en, emu_purge_config env' name = Some (t, en) /\ unlinked t = [p].
Proof.
  intros Hdir Hdir' Hfit Hc Hs.
  pose proof (get_directory_found _ _ _ Hdir) as ->.
  pose proof (get_directory_found _ _ _ Hdir') as ->.
  assert (Hp : p = (path ++ "/" ++ cfg_file name)%string).
  { revert Hc. unfold emu_create_new. rewrite Hdir, (create_path path name Hfit).
    destruct (env_stat env _); try (destruct (env_open env _)); cbn [fst app In];
      intros [H | H]; try discriminate H; try contradiction;
      try (injection H as <-; reflexivity);
      destruct H as [H | []]; discriminate H. }
  unfold emu_purge_config. rewrite Hdir'.
  rewrite (purge_target_path env' path name) by lia.
  unfold cfg_file in Hp.
  destruct (strstr name ".cfg").
  - subst p. destruct (env_unlink env' _); do 2 eexists; split; reflexivity.
  - subst p. rewrite Hs.
    destruct (env_unlink env' _); do 2 eexists; split; reflexivity.
Qed.

Lemma purge_deletes_created_witness :
  exists t en,
    emu_purge_config
      (mkEnv (Some "/home/u"%string) (fun _ => StatOk) (fun _ => true)
             (fun _ => UnlinkOk) (fun _ => MkdirEEXIST) true)
      "dos" = Some (t, en) /\
    unlinked t = ["/home/u/.emubox/dos.cfg"%string].
Proof.
  set (env := mkEnv (Some "/home/u"%string)
                    (fun p => if String.eqb p "/home/u/.emubox" then StatOk else StatENOENT)
                    (fun _ => true) (fun _ => UnlinkOk) (fun _ => MkdirEEXIST) true).
  set (env' := mkEnv (Some "/home/u"%string) (fun _ => StatOk) (fun _ => true)
                     (fun _ => UnlinkOk) (fun _ => MkdirEEXIST) true).
  assert (Hdir : emu_get_directory env = (Some "/home/u/.emubox"%string, []))
    by reflexivity.
  assert (Hdir' : emu_get_directory env' = (Some "/home/u/.emubox"%string, []))
    by reflexivity.
  assert (Hf : strlen "/home/u/.emubox" + strlen "dos" + 10 <= SIZE_MAX)
    by (vm_compute; discriminate).
  assert (Hc : In (SCreat "/home/u/.emubox/dos.cfg") (fst (emu_create_new env "dos")))
    by (left; reflexivity).
  assert (Hs : env_stat env' "/home/u/.emubox/dos.cfg" = StatOk) by reflexivity.
  exact (purge_deletes_created env env' "/home/u/.emubox" "dos"
           "/home/u/.emubox/dos.cfg" [] [] Hdir Hdir' Hf Hc Hs).
Defined.







(** X17: what follows a choice, once the directory is found, for a
    name without ['/'] (as the names of a directory are): the path given
    to the program is [path/name], not cut short; the name announced is
    the name chosen; the program is started only when [stat] finds the
    file, in the settings mode with ["-S"] and neither language nor
    full screen, else with the arguments of [emu_launch_box]. *)
Theorem launch_choice_path (env : sys_env) (path name : string) (e : list sys_effect)
        (lang : option string) (is_fullscreen is_settings : Z) :
  emu_get_directory env = (Some path, e) ->
  strlen path + strlen name + 3 <= SIZE_MAX ->
  strchr name SLASH = false ->
  let conf := (path ++ "/" ++ name)%string in
  launch_choice env name lang is_fullscreen is_settings
  = match env_stat env conf with
    | StatOk =>
        (SStdout ("emubox: using config: " ++ name ++ LF)
           :: (if env_fork env
               then [SExec (if is_settings =? 0
                            then launch_box_argv conf lang is_fullscreen
                            else [PATH_86BOX; PATH_86BOX; "-C"; conf; "-S"]%string)]
               else []),
         Returns)
    | StatENOENT =>
        ([SStderr ("emubox: config " ++ DQ ++ name ++ DQ ++ " does not exists." ++ LF)],
         Returns)
    | StatError => ([SWarn "stat"], Returns)
    end.
Proof.
  intros Hdir Hfit Hname conf.
  pose proof (get_directory_found _ _ _ Hdir) as ->.
  pose proof (strlen_nonneg path). pose proof (strlen_nonneg name).
  unfold launch_choice. rewrite Hdir.
  rewrite size_wrap_id by lia.
  rewrite snprintf_fits
    by (rewrite !strlen_app; change (strlen "/") with 1; lia).
  fold conf.
  assert (Hb : emu_basename conf = name) by (apply (emu_basename_join path name Hname)).
  rewrite Hb.
  destruct (env_stat env conf); try reflexivity.
  unfold emu_launch_box, emu_launch_settings.
  destruct (is_settings =? 0), (env_fork env); reflexivity.
Qed.

Lemma launch_choice_path_witness :
  launch_choice
    (mkEnv (Some "/home/u"%string) (fun _ => StatOk) (fun _ => true)
           (fun _ => UnlinkOk) (fun _ => MkdirEEXIST) true)
    "m.cfg" (Some "de-DE"%string) 1 0
  = ([SStdout ("emubox: using config: " ++ "m.cfg" ++ LF);
      SExec [PATH_86BOX; PATH_86BOX; "-C"; "/home/u/.emubox/m.cfg"; "-G"; "de-DE"; "-F"]%string],
     Returns).
Proof.
  set (env := mkEnv (Some "/home/u"%string) (fun _ => StatOk) (fun _ => true)
                    (fun _ => UnlinkOk) (fun _ => MkdirEEXIST) true).
  assert (Hdir : emu_get_directory env = (Some "/home/u/.emubox"%string, []))
    by reflexivity.
  assert (Hf : strlen "/home/u/.emubox" + strlen "m.cfg" + 3 <= SIZE_MAX)
    by (vm_compute; discriminate).
  assert (Hn : strchr "m.cfg" SLASH = false) by reflexivity.
  exact (launch_choice_path env "/home/u/.emubox" "m.cfg" [] (Some "de-DE"%string) 1 0
                            Hdir Hf Hn).
Defined.

(* ------------------------------------------------------------------ *)
(** ** Sessions: reaching pages *)

Lemma wait_inv_end_page (pre_idx : Z) (s : nav) :
  wait_inv pre_idx s -> end_page s = if pre_idx <=? xs s + 10 then 1 else 0.
Proof.
  intros [(_ & _ & _ & _ & Hflag & Hlast) [Hset _]].
  destruct (Z.leb_spec pre_idx (xs s + 10)); lia.
Qed.

(** X18: every page that exists can be shown: KEY_RIGHT typed [k]
    times from the start shows the page that starts at [10 * k], with
    the cursor on its first entry and [end_page] set exactly on the
    last page, for every [k] with [10 * k < N] (short of the page the
    index limit stops). *)
Theorem page_reachable (dirents : list dirent) (k : nat) :
  dir_ok dirents ->
  10 * Z.of_nat k < entry_count dirents ->
  10 * Z.of_nat k <= 9980 \/ entry_count dirents <= 9999 ->
  fst (emu_select_list (Some dirents) (repeat KEY_RIGHT k))
  = Browsing (mkNav (10 * Z.of_nat k) (10 * Z.of_nat k)
                    (if entry_count dirents <=? 10 * Z.of_nat k + 10 then 1 else 0)).
Proof.
  intros Hd. induction k as [|k IH]; intros Hk Hlim.
  - destruct (session_start dirents Hd) as [s [Hs [Hx Hr]]]; [lia|].
    destruct (session_wait_inv _ _ _ Hd Hs) as (_ & _ & Hw).
    pose proof (wait_inv_end_page _ _ Hw) as He. rewrite Hx in He.
    cbn [repeat]. rewrite Hs. f_equal.
    apply nav_eta; [exact Hx | exact Hr | exact He].
  - assert (Hs : fst (emu_select_list (Some dirents) (repeat KEY_RIGHT k))
                 = Browsing (mkNav (10 * Z.of_nat k) (10 * Z.of_nat k) 0)).
    { rewrite IH by lia.
      destruct (Z.leb_spec (entry_count dirents) (10 * Z.of_nat k + 10)); [lia|].
      reflexivity. }
    assert (K : on_key (entry_count dirents) KEY_RIGHT
                       (mkNav (10 * Z.of_nat k) (10 * Z.of_nat k) 0)
                = KeyContinue (mkNav (10 * Z.of_nat k + 10) (10 * Z.of_nat k + 10) 0)).
    { destruct (session_wait_inv _ _ _ Hd Hs) as (_ & _ & [(Hxs & _) _]).
      apply on_key_right; [reflexivity | exact Hxs]. }
    assert (HR : KEY_RIGHT <> 10) by (unfold KEY_RIGHT; lia).
    replace (repeat KEY_RIGHT (S k)) with (repeat KEY_RIGHT k ++ [KEY_RIGHT])
      by (symmetry; apply repeat_cons).
    destruct (session_key_limit _ _ _ _ _ Hd Hs K HR)
      as [(Hx9 & Hbig & _) | [s' (Hs' & Hx' & Hr')]]; cbn [xs run_idx] in *; [lia|].
    destruct (session_wait_inv _ _ _ Hd Hs') as (_ & _ & Hw').
    pose proof (wait_inv_end_page _ _ Hw') as He. rewrite Hx' in He.
    rewrite Hs'. f_equal.
    apply nav_eta; [lia | lia|].
    rewrite He. replace (10 * Z.of_nat (S k) + 10) with (10 * Z.of_nat k + 10 + 10) by lia.
    reflexivity.
Qed.

Lemma page_reachable_witness :
  dir_ok (cfg_dir 25) /\
  fst (emu_select_list (Some (cfg_dir 25)) (repeat KEY_RIGHT 2))
  = Browsing (mkNav (10 * Z.of_nat 2) (10 * Z.of_nat 2)
                    (if entry_count (cfg_dir 25) <=? 10 * Z.of_nat 2 + 10 then 1 else 0)).
Proof.
  assert (Hd : dir_ok (cfg_dir 25)) by (apply dir_okb_ok; vm_compute; reflexivity).
  assert (Hk : 10 * Z.of_nat 2 < entry_count (cfg_dir 25)) by (vm_compute; reflexivity).
  assert (Hl : 10 * Z.of_nat 2 <= 9980 \/ entry_count (cfg_dir 25) <= 9999)
    by (left; vm_compute; discriminate).
  split; [exact Hd|].
  exact (page_reachable (cfg_dir 25) 2 Hd Hk Hl).
Defined.
